(** * MT5 trade copier server: queueing, supersession and polling

    A shallow embedding of [simple_copier_server.py]: the three module-level
    stores ([signals_queue], [slaves], [slave_processed_signals]) become one
    record that every route takes and returns, and every reading of the
    clock becomes an argument of the route that reads it.

    Conventions of the embedding.
    - JSON scalars that the server inspects are [value]s: [None]/[null],
      integers and strings.  On these Python's [==] is structural equality.
      Floats, booleans, arrays and objects only occur in the payload, which
      the server never looks at; they are left out.
    - A naive [datetime] is the number of microseconds since 2000-01-01
      (the default of the sweeper); [isoformat]/[fromisoformat] are inverse
      to each other and are not represented.
    - A queue entry is the request dictionary together with the two keys
      the server writes into it, [server_timestamp] and [signal_id]; the
      only statement that appends to a queue is in [upload_signal], after
      both keys were written, so both are fields of the entry.
    - A Python [set] of strings is the list of its members in the order
      they were added.  The order in which Python iterates over a set is
      that of its hash table, not the order of insertion; it is a
      variable, [set_iter], of the definitions that iterate. *)

From stdpp Require Import gmap strings list fin_maps pretty.

Open Scope Z_scope.

(** ** JSON scalars *)

Inductive value :=
  | VNone
  | VInt (z : Z)
  | VStr (s : string).

Global Instance value_eq_dec : EqDecision value.
Proof. solve_decision. Defined.

Global Instance value_countable : Countable value.
Proof.
  refine (inj_countable'
    (λ v, match v with
          | VNone => inl ()
          | VInt z => inr (inl z)
          | VStr s => inr (inr s)
          end)
    (λ c, match c with
          | inl _ => VNone
          | inr (inl z) => VInt z
          | inr (inr s) => VStr s
          end) _).
  by intros [].
Defined.

(** [bool(v)]: what [not v] tests. *)
Definition truthy (v : value) : bool :=
  match v with
  | VNone => false
  | VInt z => bool_decide (z ≠ 0)
  | VStr s => bool_decide (s ≠ "")
  end.

(** [f"{v}"]. *)
Definition format (v : value) : string :=
  match v with
  | VNone => "None"
  | VInt z => pretty z
  | VStr s => s
  end.

Abbreviation dict := (gmap string value).

(** [d.get(k)]: [None] when the key is absent. *)
Definition get (d : dict) (k : string) : value := default VNone (d !! k).

(** ** Queue entries and the stores *)

Record signal := Signal {
  fields : dict;
  server_timestamp : Z;
  signal_id : string
}.

Global Instance signal_eq_dec : EqDecision signal.
Proof. solve_decision. Defined.

Record slave_info := SlaveInfo {
  registered_at : Z;
  last_poll : Z
}.

Abbreviation pyset := (list string).

Record state := State {
  signals_queue : gmap value (list signal);
  slaves : gmap value (gmap value slave_info);
  slave_processed_signals : gmap value pyset
}.

Definition initial : state := State ∅ ∅ ∅.

Inductive response :=
  | Error400 (msg : string)
  | Acknowledged (action : value)
  | Received (master_id action ticket : value) (sid : string)
  | Registered (slave_id master_id : value)
  | PollOk (signals : list signal)
  | Cleared (slave_processed master_queue : option nat)
  | NothingToClear.

(** ** Python helpers *)

(** [l[-n:]] *)
Definition last_n {A} (n : nat) (l : list A) : list A :=
  drop (length l - n) l.

(** [s.add(x)] *)
Definition set_add (x : string) (s : pyset) : pyset :=
  if decide (x ∈ s) then s else s ++ [x].

(** [set(l)] *)
Definition set_of_list (l : list string) : pyset :=
  foldl (λ s x, set_add x s) [] l.

(** [(now - ts).seconds]: the seconds field of the normalised
    [timedelta], which lies in [0, 86400); the days are a field apart. *)
Definition timedelta_seconds (now ts : Z) : Z :=
  ((now - ts) `mod` 86400000000) `div` 1000000.

(** [(now - ts).total_seconds()], rounded down. *)
Definition timedelta_total_seconds (now ts : Z) : Z :=
  (now - ts) `div` 1000000.

(** ** [upload_signal] *)

Definition valid_actions : list value :=
  [VStr "NEW_TRADE"; VStr "NEW_PENDING"; VStr "MODIFY_TRADE";
   VStr "MODIFY_PENDING"; VStr "CLOSE_TRADE"; VStr "DELETE_ORDER";
   VStr "INIT_TEST"; VStr "HEARTBEAT"].

Definition symbol_optional : list value :=
  [VStr "DELETE_ORDER"; VStr "INIT_TEST"; VStr "HEARTBEAT"].

Definition not_queued : list value := [VStr "INIT_TEST"; VStr "HEARTBEAT"].

Definition modify_actions : list value :=
  [VStr "MODIFY_TRADE"; VStr "MODIFY_PENDING"].

Definition closing_actions : list value :=
  [VStr "DELETE_ORDER"; VStr "CLOSE_TRADE"].

(** The actions of the last branch, line 164. *)
Definition opening_actions : list value :=
  [VStr "NEW_TRADE"; VStr "NEW_PENDING"].

(** [f"{master_ticket}_{action}_{int(datetime.now().timestamp() * 1000)}"];
    [now_ms] is the clock reading in milliseconds. *)
Definition make_signal_id (master_ticket action : value) (now_ms : Z) : string :=
  format master_ticket +:+ "_" +:+ format action +:+ "_" +:+ pretty now_ms.

(** The entry [data] after [data["server_timestamp"] = ...] and
    [data["signal_id"] = ...]. *)
Definition stamp (now now_ms : Z) (data : dict) : signal :=
  Signal data now
    (make_signal_id (get data "master_ticket") (get data "action") now_ms).

(** The test of the duplicate scan, lines 168-172. *)
Definition same_triple (data : dict) (sig : signal) : Prop :=
  get (fields sig) "master_ticket" = get data "master_ticket"
  ∧ get (fields sig) "action" = get data "action"
  ∧ get (fields sig) "symbol" = get data "symbol".

Global Instance same_triple_dec data sig : Decision (same_triple data sig).
Proof. unfold same_triple. apply _. Defined.

(** [is_duplicate] after the scan. *)
Definition is_duplicate (data : dict) (q : list signal) : bool :=
  bool_decide (Exists (same_triple data) q).

(** The three insertion branches, lines 138-181. *)
Definition insert_signal (data : dict) (sig : signal) (q : list signal)
  : list signal :=
  let action := get data "action" in
  if decide (action ∈ modify_actions) then q ++ [sig]
  else if decide (action ∈ closing_actions) then
    filter (λ s, get (fields s) "master_ticket" ≠ get data "master_ticket") q
      ++ [sig]
  else if is_duplicate data q then q
  else q ++ [sig].

(** Lines 184-186. *)
Definition enforce_cap (q : list signal) : list signal :=
  if decide (50 < length q)%nat then last_n 50 q else q.

Definition set_queue (st : state) (master_id : value) (q : list signal) : state :=
  State (<[master_id := q]> (signals_queue st)) (slaves st)
        (slave_processed_signals st).

Definition upload_signal (now now_ms : Z) (data : dict) (st : state)
  : state * response :=
  if decide (data = ∅) then (st, Error400 "No data provided") else
  let master_id := get data "master_id" in
  let action := get data "action" in
  let master_ticket := get data "master_ticket" in
  if negb (truthy master_id) || negb (truthy action)
     || bool_decide (master_ticket = VNone)
  then (st, Error400 "Missing master_id, action, or master_ticket") else
  if decide (action ∉ valid_actions)
  then (st, Error400 ("Invalid action: " +:+ format action)) else
  if decide ((action ∉ symbol_optional) ∧ (data !! "symbol" = None))
  then (st, Error400 ("Missing symbol for action " +:+ format action)) else
  if decide (action ∈ not_queued) then (st, Acknowledged action) else
  let sig := stamp now now_ms data in
  let q := default [] (signals_queue st !! master_id) in
  (set_queue st master_id (enforce_cap (insert_signal data sig q)),
   Received master_id action master_ticket (signal_id sig)).

(** ** [register_slave] *)

Definition set_slave (st : state) (master_id slave_id : value)
  (info : slave_info) : state :=
  State (signals_queue st)
        (<[master_id := (<[slave_id := info]>
                           (default ∅ (slaves st !! master_id)))]> (slaves st))
        (slave_processed_signals st).

Definition register_slave (now : Z) (data : dict) (st : state)
  : state * response :=
  if decide (data = ∅) then (st, Error400 "No data provided") else
  let slave_id := get data "slave_id" in
  let master_id := get data "master_id" in
  if negb (truthy slave_id) || negb (truthy master_id)
  then (st, Error400 "Missing slave_id or master_id") else
  let st1 := set_slave st master_id slave_id (SlaveInfo now now) in
  let processed :=
    match slave_processed_signals st1 !! slave_id with
    | Some _ => slave_processed_signals st1
    | None => <[slave_id := []]> (slave_processed_signals st1)
    end in
  (State (signals_queue st1) (slaves st1) processed,
   Registered slave_id master_id).

(** ** [clear_signals] *)

Definition clear_signals (data : dict) (st : state) : state * response :=
  let master_id := get data "master_id" in
  let slave_id := get data "slave_id" in
  let '(processed, c1) :=
    match (if truthy slave_id then slave_processed_signals st !! slave_id
           else None) with
    | Some s => (<[slave_id := []]> (slave_processed_signals st),
                 Some (length s))
    | None => (slave_processed_signals st, None)
    end in
  let '(queues, c2) :=
    match (if truthy master_id then signals_queue st !! master_id
           else None) with
    | Some q => (delete master_id (signals_queue st), Some (length q))
    | None => (signals_queue st, None)
    end in
  (State queues (slaves st) processed,
   match c1, c2 with
   | None, None => NothingToClear
   | _, _ => Cleared c1 c2
   end).

(** ** One pass of [cleanup_old_signals] (the body of its [while True]) *)

Definition retained (now : Z) (s : signal) : Prop :=
  timedelta_seconds now (server_timestamp s) < 600.

Global Instance retained_dec now s : Decision (retained now s).
Proof. unfold retained. apply _. Defined.

Definition sweep_queue (now : Z) (q : list signal) : option (list signal) :=
  match filter (retained now) q with
  | [] => None
  | q' => Some q'
  end.

Definition cleanup_pass (now : Z) (st : state) : state :=
  State (omap (sweep_queue now) (signals_queue st)) (slaves st)
        (slave_processed_signals st).

(** ** [slave_poll] *)

(** The [for signal in signals_queue[master_id]] loop, lines 286-302:
    the first entry whose id is non-empty and not yet processed. *)
Fixpoint find_unprocessed (processed : pyset) (q : list signal)
  : option signal :=
  match q with
  | [] => None
  | sig :: q' =>
      if decide (signal_id sig ≠ "" ∧ signal_id sig ∉ processed)
      then Some sig
      else find_unprocessed processed q'
  end.

Section Poll.

(** [list(s)] for a set [s]: the members in hash-table order. *)
Variable set_iter : pyset → list string.

(** Lines 305-307. *)
Definition trim_processed (s : pyset) : pyset :=
  if decide (200 < length s)%nat
  then set_of_list (last_n 200 (set_iter s))
  else s.

(** Lines 286-307: the scan, the mark and the trim. *)
Definition deliver (q : list signal) (processed : pyset)
  : pyset * option signal :=
  let found := find_unprocessed processed q in
  let processed1 :=
    match found with
    | Some sig => set_add (signal_id sig) processed
    | None => processed
    end in
  (trim_processed processed1, found).

Definition slave_poll (now : Z) (slave_id master_id : option string)
  (st : state) : state * response :=
  match slave_id, master_id with
  | Some s, Some m =>
      if decide (s = "" ∨ m = "")
      then (st, Error400 "Missing slave_id or master_id") else
      let sk := VStr s in
      let mk := VStr m in
      let registered :=
        match default ∅ (slaves st !! mk) !! sk with
        | Some info => registered_at info
        | None => now
        end in
      let st1 := set_slave st mk sk (SlaveInfo registered now) in
      match signals_queue st1 !! mk with
      | None => (st1, PollOk [])
      | Some q =>
          let processed :=
            default [] (slave_processed_signals st1 !! sk) in
          let '(processed', found) := deliver q processed in
          (State (signals_queue st1) (slaves st1)
                 (<[sk := processed']> (slave_processed_signals st1)),
           PollOk (option_list found))
      end
  | _, _ => (st, Error400 "Missing slave_id or master_id")
  end.

(** ** Requests and runs of the server *)

Inductive request :=
  | Upload (now now_ms : Z) (data : dict)
  | Register (now : Z) (data : dict)
  | Poll (now : Z) (slave_id master_id : option string)
  | Clear (data : dict)
  | Sweep (now : Z).

Definition step (st : state) (r : request) : state :=
  match r with
  | Upload now now_ms data => (upload_signal now now_ms data st).1
  | Register now data => (register_slave now data st).1
  | Poll now slave_id master_id => (slave_poll now slave_id master_id st).1
  | Clear data => (clear_signals data st).1
  | Sweep now => cleanup_pass now st
  end.

Definition run (rs : list request) : state := foldl step initial rs.

Inductive reachable : state → Prop :=
  | reachable_initial : reachable initial
  | reachable_step st r : reachable st → reachable (step st r).

End Poll.

(** ** Readers used in the statements *)

(** The queue of a master, where an absent queue reads as the empty one. *)
Definition queue_of (st : state) (master_id : value) : list signal :=
  default [] (signals_queue st !! master_id).

(** The processed set of a slave, where an absent set reads as the empty
    one (lines 282-283 create it empty before the scan). *)
Definition tracker_of (st : state) (slave_id : value) : pyset :=
  default [] (slave_processed_signals st !! slave_id).

Definition ticket_of (s : signal) : value := get (fields s) "master_ticket".

(** [slaves[master_id][slave_id]], when both keys are present. *)
Definition registration (st : state) (master_id slave_id : value)
  : option slave_info :=
  slaves st !! master_id ≫= λ regs, regs !! slave_id.


(** The signals carried by a poll response. *)
Definition delivered (r : response) : list signal :=
  match r with
  | PollOk l => l
  | _ => []
  end.

(** A request body that passes the checks of lines 85-119 and is not a
    test or heartbeat: it reaches the insertion branches. *)
Definition queueable (data : dict) : Prop :=
  truthy (get data "master_id")
  ∧ get data "master_ticket" ≠ VNone
  ∧ (get data "action" ∈ valid_actions)
  ∧ (get data "action" ∉ not_queued)
  ∧ ((get data "action" ∈ symbol_optional) ∨ is_Some (data !! "symbol")).

Global Instance queueable_dec data : Decision (queueable data).
Proof. unfold queueable. apply _. Defined.

(** A request body from its items, as a JSON object literal. *)
Definition body (items : list (string * value)) : dict := list_to_map items.

(** The reasons for which lines 85-119 reject a request body. *)
Definition invalid (data : dict) : Prop :=
  data !! "master_id" = None
  ∨ data !! "action" = None
  ∨ data !! "master_ticket" = None
  ∨ (get data "action" ∉ valid_actions)
  ∨ ((get data "action" ∉ symbol_optional) ∧ data !! "symbol" = None).

(** The ways in which a request can take the entry [x] out of the queue
    of master [m]: an upload of a closing action for the ticket of [x]
    (supersession), an upload into a queue that already holds 50 entries
    (the cap), a sweep for which [x] is too old, a clear of [m]. *)
Definition may_remove (st : state) (r : request) (m : value) (x : signal)
  : Prop :=
  match r with
  | Upload _ _ data =>
      queueable data ∧ get data "master_id" = m
      ∧ ((get data "action" ∈ closing_actions
          ∧ ticket_of x = get data "master_ticket")
         ∨ (50 ≤ length (queue_of st m))%nat)
  | Sweep now => ¬ retained now x
  | Clear data => get data "master_id" = m
  | Register _ _ | Poll _ _ _ => False
  end.

(** Two iteration orders: the one of an insertion-ordered set, which
    Python does not promise, and its reverse. *)
Definition insertion_order : pyset → list string := λ s, s.
Definition reverse_order : pyset → list string := λ s, rev s.

(** Successive polls of master [m] by slave [s], one per clock reading:
    what each of them delivers. *)
Fixpoint polls (set_iter : pyset → list string) (nows : list Z)
  (s m : string) (st : state) : list (list signal) :=
  match nows with
  | [] => []
  | now :: nows' =>
      let p := slave_poll set_iter now (Some s) (Some m) st in
      delivered p.2 :: polls set_iter nows' s m p.1
  end.

(** FIFO delivery, as claimed of every queue of three entries and every
    slave that has processed none of their ids. *)
Definition fifo_as_stated (set_iter : pyset → list string) : Prop :=
  ∀ st m s A B C n1 n2 n3 n4,
    reachable set_iter st → s ≠ "" → m ≠ "" →
    signals_queue st !! VStr m = Some [A; B; C] →
    Forall (λ X, signal_id X ∉ tracker_of st (VStr s)) [A; B; C] →
    polls set_iter [n1; n2; n3; n4] s m st = [[A]; [B]; [C]; []].

(** The same, of the queues whose three ids differ from each other. *)
Definition fifo_of_distinct_ids (set_iter : pyset → list string) : Prop :=
  ∀ st m s A B C n1 n2 n3 n4,
    reachable set_iter st → s ≠ "" → m ≠ "" →
    signals_queue st !! VStr m = Some [A; B; C] →
    Forall (λ X, signal_id X ∉ tracker_of st (VStr s)) [A; B; C] →
    NoDup (signal_id <$> [A; B; C]) →
    polls set_iter [n1; n2; n3; n4] s m st = [[A]; [B]; [C]; []].

(** A run of uploads, each with its two clock readings. *)
Definition upload_all (st : state) (reqs : list (Z * Z * dict)) : state :=
  foldl (λ st r, (upload_signal r.1.1 r.1.2 r.2 st).1) st reqs.

(** ** Request bodies of the examples *)

Definition trade (master action : string) (ticket : Z) (symbol : string)
  : dict :=
  body [("master_id", VStr master); ("action", VStr action);
        ("master_ticket", VInt ticket); ("symbol", VStr symbol)].

(** [n] NEW_TRADE requests of master M with tickets 1 to [n], one per
    second. *)
Definition burst (n : nat) : list (Z * Z * dict) :=
  (λ i, (i * 1000000, i * 1000, trade "M" "NEW_TRADE" i "EURUSD"))
    <$> seqZ 1 (Z.of_nat n).

Definition uploads (reqs : list (Z * Z * dict)) : list request :=
  (λ r, Upload r.1.1 r.1.2 r.2) <$> reqs.

(** Three MODIFY_TRADE requests for ticket 7 in a row; the clock shows the
    same millisecond to the first two. *)
Definition modify_burst : list (Z * Z * dict) :=
  [(1000100, 1000, trade "M" "MODIFY_TRADE" 7 "EURUSD");
   (1000900, 1000, trade "M" "MODIFY_TRADE" 7 "EURUSD");
   (1001200, 1001, trade "M" "MODIFY_TRADE" 7 "EURUSD")].

(** 200 rounds in which a request is uploaded to master M, slave S polls
    M and the queue of M is cleared, so that S has processed 200 ids; then
    three more requests are uploaded. *)
Definition fill_tracker : list request :=
  (burst 200 ≫= λ r, [Upload r.1.1 r.1.2 r.2;
                      Poll (r.1.1 + 1) (Some "S") (Some "M");
                      Clear (body [("master_id", VStr "M")])])
  ++ uploads (drop 200 (burst 203)).

(** * Further readers and reports *)

(** The action of a queue entry. *)
Definition action_of (s : signal) : value := get (fields s) "action".

(** What the server knows of an entry of the queue of master [m]: it is a
    request body that passed the checks, for that master, with the two
    keys the server wrote. *)
Definition filed_under (m : value) (x : signal) : Prop :=
  get (fields x) "master_id" = m
  ∧ queueable (fields x)
  ∧ ∃ now_ms, x = stamp (server_timestamp x) now_ms (fields x).

(** The triple compared by the duplicate scan. *)
Definition triple_of (x : signal) : value * value * value :=
  (ticket_of x, action_of x, get (fields x) "symbol").

Definition opening_entries (q : list signal) : list signal :=
  filter (λ x, action_of x ∈ opening_actions) q.

(** No entry for the ticket of a closing entry stands before it. *)
Definition closes_first (q : list signal) : Prop :=
  ∀ l1 c l2,
    q = l1 ++ c :: l2 →
    action_of c ∈ closing_actions →
    Forall (λ x, ticket_of x ≠ ticket_of c) l1.

(** The state after successive polls of master [m] by slave [s]. *)
Fixpoint after_polls (set_iter : pyset → list string) (nows : list Z)
  (s m : string) (st : state) : state :=
  match nows with
  | [] => st
  | now :: nows' =>
      after_polls set_iter nows' s m
        (slave_poll set_iter now (Some s) (Some m) st).1
  end.

(** Requests that are polls by slave [s], and requests that clear the
    processed set of slave [s]. *)
Definition polled_by (s : value) (r : request) : Prop :=
  match r with
  | Poll _ (Some s') _ => VStr s' = s
  | _ => False
  end.

Global Instance polled_by_dec s r : Decision (polled_by s r).
Proof. destruct r as [| | ? [?|] ? | |]; simpl; apply _. Defined.

Definition clears_slave (s : value) (r : request) : Prop :=
  match r with
  | Clear data => get data "slave_id" = s
  | _ => False
  end.

Global Instance clears_slave_dec s r : Decision (clears_slave s r).
Proof. destruct r; simpl; apply _. Defined.

(** ** [home]: the three counters of its [stats] *)

Record home_stats := HomeStats {
  active_masters : nat;
  total_signals : nat;
  registered_slaves : nat
}.

(** [sum(len(v) for v in d.values())] *)
Definition sum_of_lengths (d : gmap value (list signal)) : nat :=
  sum_list ((λ kv, length kv.2) <$> map_to_list d).

Definition home (st : state) : home_stats :=
  HomeStats (size (signals_queue st))
            (sum_of_lengths (signals_queue st))
            (sum_list ((λ kv, size kv.2) <$> map_to_list (slaves st))).

(** ** [status] *)

(** The report on one master.  [connected_slaves] is listed in the order
    of the dictionary; here it is the set of its keys. *)
Record master_report := MasterReport {
  pending_signals : nat;
  latest_signal : option signal;
  oldest_signal : option signal;
  connected_slaves : gset value;
  signals_by_action : gmap value nat;
  signal_list : list string
}.

Record slave_report := SlaveReport {
  processed_count : nat;
  last_10_processed : list string
}.

Record status_report := StatusReport {
  masters : gmap value master_report;
  slave_reports : gmap value slave_report;
  total_pending_signals : nat
}.

(** One round of the loop of lines 382-387. *)
Definition count_action (h : gmap value nat) (sig : signal)
  : gmap value nat :=
  let action := get (fields sig) "action" in
  if truthy action
  then <[action := (default 0 (h !! action) + 1)%nat]> h
  else h.

Definition master_report_of (st : state) (master_id : value)
  (signals : list signal) : master_report :=
  MasterReport
    (length signals)
    (last signals)
    (head signals)
    (dom (default ∅ (slaves st !! master_id)))
    (foldl count_action ∅ signals)
    ((λ s, format (get (fields s) "master_ticket") +:+ "("
           +:+ format (get (fields s) "action") +:+ ")") <$> signals).

Definition status (set_iter : pyset → list string) (st : state)
  : status_report :=
  StatusReport
    (map_imap (λ m q, Some (master_report_of st m q)) (signals_queue st))
    ((λ processed,
        SlaveReport (length processed)
          (match processed with
           | [] => []
           | _ => last_n 10 (set_iter processed)
           end)) <$> slave_processed_signals st)
    (sum_of_lengths (signals_queue st)).
(** * Properties *)

(** ** Lists and sets *)

Lemma last_n_length {A} (n : nat) (l : list A) :
  length (last_n n l) = (length l `min` n)%nat.
Proof. unfold last_n. rewrite length_drop. lia. Qed.

Lemma last_n_all {A} (n : nat) (l : list A) :
  (length l ≤ n)%nat → last_n n l = l.
Proof.
  intros H. unfold last_n. replace (length l - n)%nat with 0%nat by lia.
  done.
Qed.

Lemma last_n_app_one {A} (n : nat) (l : list A) (x : A) :
  last_n (S n) (l ++ [x]) = last_n n l ++ [x].
Proof.
  unfold last_n. rewrite length_app. simpl.
  replace (length l + 1 - S n)%nat with (length l - n)%nat by lia.
  rewrite drop_app_le; [done | lia].
Qed.

Lemma last_n_elem_of {A} (n : nat) (l : list A) (x : A) :
  x ∈ last_n n l → x ∈ l.
Proof. intros H. eapply elem_of_suffix; [done | apply suffix_drop]. Qed.

Lemma enforce_cap_length q : (length (enforce_cap q) ≤ 50)%nat.
Proof.
  unfold enforce_cap. case_decide; [rewrite last_n_length |]; lia.
Qed.

Lemma enforce_cap_small q : (length q ≤ 50)%nat → enforce_cap q = q.
Proof. unfold enforce_cap. intros H. case_decide; [lia | done]. Qed.

Lemma enforce_cap_last_n q : enforce_cap q = last_n 50 q.
Proof.
  unfold enforce_cap. case_decide; [done |].
  symmetry. apply last_n_all. lia.
Qed.

Lemma enforce_cap_elem_of q x : x ∈ enforce_cap q → x ∈ q.
Proof. rewrite enforce_cap_last_n. apply last_n_elem_of. Qed.

Lemma enforce_cap_app_one q x :
  enforce_cap (q ++ [x]) = last_n 49 q ++ [x].
Proof. rewrite enforce_cap_last_n. apply last_n_app_one. Qed.

(** ** Ingestion *)

Lemma get_Some (d : dict) k v : d !! k = Some v → get d k = v.
Proof. unfold get. by intros ->. Qed.

Lemma get_None (d : dict) k : d !! k = None → get d k = VNone.
Proof. unfold get. by intros ->. Qed.

Lemma truthy_not_None v : truthy v → v ≠ VNone.
Proof. by destruct v. Qed.

Lemma queueable_nonempty data : queueable data → data ≠ ∅.
Proof.
  intros (Hm & _) ->. unfold get in Hm. by rewrite lookup_empty in Hm.
Qed.

Lemma valid_action_truthy a : a ∈ valid_actions → truthy a.
Proof.
  unfold valid_actions. rewrite !elem_of_cons, elem_of_nil.
  intros H. by repeat (destruct H as [-> | H]; [done |]).
Qed.

(** An accepted request runs the insertion branch of its action and the
    cap, on the queue of its master. *)
Lemma upload_signal_queueable now now_ms data st :
  queueable data →
  upload_signal now now_ms data st =
    (set_queue st (get data "master_id")
       (enforce_cap (insert_signal data (stamp now now_ms data)
                       (queue_of st (get data "master_id")))),
     Received (get data "master_id") (get data "action")
       (get data "master_ticket") (signal_id (stamp now now_ms data))).
Proof.
  intros Hq. pose proof (queueable_nonempty _ Hq) as Hne.
  destruct Hq as (Hm & Ht & Hv & Hnq & Hsym).
  unfold upload_signal.
  rewrite decide_False by done.
  pose proof (valid_action_truthy _ Hv) as Ha.
  destruct (truthy (get data "master_id")); [| done].
  destruct (truthy (get data "action")); [| done].
  rewrite bool_decide_eq_false_2 by done. simpl.
  rewrite decide_False by (by intros []).
  rewrite decide_False.
  2:{ intros [Hn Hs]. destruct Hsym as [| [? ?]]; [done | congruence]. }
  by rewrite decide_False.
Qed.

Lemma queue_of_set_queue st m q : queue_of (set_queue st m q) m = q.
Proof. unfold queue_of, set_queue. simpl. by rewrite lookup_insert_eq. Qed.

Lemma queue_of_set_queue_ne st m m' q :
  m ≠ m' → queue_of (set_queue st m q) m' = queue_of st m'.
Proof.
  intros H. unfold queue_of, set_queue. simpl. by rewrite lookup_insert_ne.
Qed.

(** C9. A request body that lacks [master_id], [action] or
    [master_ticket], or whose action is none of the eight, or that lacks
    [symbol] for an action other than DELETE_ORDER, INIT_TEST and
    HEARTBEAT, is answered with a 400 error, and the three stores are
    returned as they were. *)
Theorem upload_signal_rejects_invalid now now_ms data st :
  invalid data →
  ∃ msg, upload_signal now now_ms data st = (st, Error400 msg).
Proof.
  intros Hinv. unfold upload_signal.
  case_decide; [by eexists |].
  destruct (negb (truthy (get data "master_id"))
            || negb (truthy (get data "action"))
            || bool_decide (get data "master_ticket" = VNone)) eqn:Hreq;
    [by eexists |].
  apply orb_false_iff in Hreq as [Hreq Ht].
  apply orb_false_iff in Hreq as [Hm Ha].
  apply negb_false_iff in Hm, Ha.
  apply bool_decide_eq_false in Ht.
  case_decide; [by eexists |].
  case_decide; [by eexists |].
  exfalso.
  destruct Hinv as [Hk | [Hk | [Hk | [Hk | Hk]]]]; try done.
  - apply get_None in Hk. by rewrite Hk in Hm.
  - apply get_None in Hk. by rewrite Hk in Ha.
  - by apply get_None in Hk.
Qed.

Lemma upload_signal_rejects_invalid_witness :
  ∃ msg,
    upload_signal 0 0
      (body [("master_id", VStr "M"); ("action", VStr "NEW_TRADE");
             ("master_ticket", VInt 5)]) initial
    = (initial, Error400 msg).
Proof.
  apply upload_signal_rejects_invalid.
  right. right. right. right. split; [| reflexivity].
  apply (bool_decide_unpack _). vm_compute. exact I.
Defined.

Ltac by_evaluation := apply (bool_decide_unpack _); vm_compute; exact I.

(** Membership in a list built with [++] and singletons. *)
Ltac in_snoc_list :=
  unfold not;
  rewrite ?elem_of_app, ?elem_of_cons, ?list_elem_of_singleton, ?elem_of_nil;
  intuition congruence.

Ltac queueable_by_evaluation :=
  split; [vm_compute; exact I |];
  split; [by_evaluation |];
  split; [by_evaluation |];
  split; [by_evaluation |];
  first [left; by_evaluation | right; vm_compute; eexists; reflexivity].

Lemma closing_not_modify a : a ∈ closing_actions → a ∉ modify_actions.
Proof.
  intros H. apply list_elem_of_In in H. simpl in H.
  destruct H as [<- | [<- | []]]; by_evaluation.
Qed.

Lemma opening_not_modify a : a ∈ opening_actions → a ∉ modify_actions.
Proof.
  intros H. apply list_elem_of_In in H. simpl in H.
  destruct H as [<- | [<- | []]]; by_evaluation.
Qed.

Lemma opening_not_closing a : a ∈ opening_actions → a ∉ closing_actions.
Proof.
  intros H. apply list_elem_of_In in H. simpl in H.
  destruct H as [<- | [<- | []]]; by_evaluation.
Qed.

Lemma insert_signal_modify data sig q :
  get data "action" ∈ modify_actions →
  insert_signal data sig q = q ++ [sig].
Proof. intros H. unfold insert_signal. by rewrite decide_True. Qed.

Lemma insert_signal_closing data sig q :
  get data "action" ∈ closing_actions →
  insert_signal data sig q =
    filter (λ s, ticket_of s ≠ get data "master_ticket") q ++ [sig].
Proof.
  intros H. unfold insert_signal.
  rewrite decide_False by by apply closing_not_modify.
  by rewrite decide_True.
Qed.

Lemma insert_signal_opening data sig q :
  get data "action" ∈ opening_actions →
  insert_signal data sig q =
    if is_duplicate data q then q else q ++ [sig].
Proof.
  intros H. unfold insert_signal.
  rewrite decide_False by by apply opening_not_modify.
  by rewrite decide_False by by apply opening_not_closing.
Qed.

Lemma filter_none {A} (P : A → Prop) `{∀ x, Decision (P x)} (l : list A) :
  (∀ x, x ∈ l → ¬ P x) → filter P l = [].
Proof.
  induction l as [| a l IH]; intros Hl; [done |].
  rewrite filter_cons, decide_False by (apply Hl; left).
  apply IH. intros x Hx. apply Hl. by right.
Qed.

Lemma same_triple_stamp now now_ms data :
  same_triple data (stamp now now_ms data).
Proof. by unfold same_triple, stamp. Qed.

(** C4. A NEW_TRADE or NEW_PENDING request is appended to the queue of
    its master exactly when no queued entry has its master_ticket, its
    action and its symbol - all three - and is dropped otherwise, the
    queue staying as it was (up to the cut to the last 50 entries); sent
    twice in a row, the second one is dropped and one entry with these
    three fields is queued. *)
Theorem dedup_append now now_ms data st :
  queueable data →
  get data "action" ∈ opening_actions →
  let m := get data "master_id" in
  let q := queue_of st m in
  let st' := (upload_signal now now_ms data st).1 in
  let queued_already :=
    ∃ x, x ∈ q
         ∧ get (fields x) "master_ticket" = get data "master_ticket"
         ∧ get (fields x) "action" = get data "action"
         ∧ get (fields x) "symbol" = get data "symbol" in
  (¬ queued_already →
     queue_of st' m = last_n 50 (q ++ [stamp now now_ms data]))
  ∧ (queued_already → queue_of st' m = last_n 50 q)
  ∧ (¬ queued_already →
     ∀ now2 now_ms2,
       let st'' := (upload_signal now2 now_ms2 data st').1 in
       queue_of st'' m = queue_of st' m
       ∧ filter (λ x, get (fields x) "master_ticket"
                        = get data "master_ticket"
                      ∧ get (fields x) "action" = get data "action"
                      ∧ get (fields x) "symbol" = get data "symbol")
           (queue_of st'' m)
         = [stamp now now_ms data]).
Proof.
  intros Hq Ha m q st' queued_already.
  assert (Hscan : queued_already ↔ Exists (same_triple data) q).
  { unfold queued_already. rewrite Exists_exists. done. }
  assert (Hst' : queue_of st' m =
                 enforce_cap (if is_duplicate data q then q
                              else q ++ [stamp now now_ms data])).
  { unfold st'. rewrite upload_signal_queueable by done. simpl.
    rewrite queue_of_set_queue. by rewrite insert_signal_opening. }
  split; [| split].
  - intros Hno. rewrite Hst', <- enforce_cap_last_n. unfold is_duplicate.
    rewrite bool_decide_eq_false_2; [done |]. by rewrite <- Hscan.
  - intros Hdup. rewrite Hst', <- enforce_cap_last_n. unfold is_duplicate.
    rewrite bool_decide_eq_true_2; [done |]. by rewrite <- Hscan.
  - intros Hno now2 now_ms2 st''.
    assert (Hno' : ¬ Exists (same_triple data) q) by by rewrite <- Hscan.
    assert (Hq' : queue_of st' m = last_n 49 q ++ [stamp now now_ms data]).
    { rewrite Hst'. unfold is_duplicate.
      rewrite bool_decide_eq_false_2 by done. apply enforce_cap_app_one. }
    assert (Hq'' : queue_of st'' m = queue_of st' m).
    { unfold st''. rewrite upload_signal_queueable by done. simpl.
      rewrite queue_of_set_queue, insert_signal_opening by done.
      fold m. unfold is_duplicate. rewrite bool_decide_eq_true_2.
      - apply enforce_cap_small. rewrite Hst'. apply enforce_cap_length.
      - rewrite Hq'. apply Exists_app. right. constructor.
        apply same_triple_stamp. }
    split; [done |].
    rewrite (list_filter_iff _ (same_triple data)) by done.
    rewrite Hq'', Hq', filter_app.
    rewrite (filter_none (same_triple data) (last_n 49 q)).
    + simpl. rewrite filter_cons, decide_True by apply same_triple_stamp.
      done.
    + intros x Hx Hsame. apply Hno', Exists_exists. exists x.
      split; [| done]. by eapply last_n_elem_of.
Qed.

(** C3. A CLOSE_TRADE or DELETE_ORDER request for ticket [t] leaves the
    queue of its master without any of the entries that had ticket [t],
    whatever their action, followed by the closing entry (up to the cap
    of 50 entries); the closing entry is then the only one for [t]. *)
Theorem supersede_and_append now now_ms data st :
  queueable data →
  get data "action" ∈ closing_actions →
  let m := get data "master_id" in
  let t := get data "master_ticket" in
  let st' := (upload_signal now now_ms data st).1 in
  queue_of st' m =
    enforce_cap (filter (λ s, ticket_of s ≠ t) (queue_of st m)
                 ++ [stamp now now_ms data])
  ∧ filter (λ s, ticket_of s = t) (queue_of st' m)
    = [stamp now now_ms data].
Proof.
  intros Hq Ha m t st'.
  assert (Hst' : queue_of st' m =
    enforce_cap (filter (λ s, ticket_of s ≠ t) (queue_of st m)
                 ++ [stamp now now_ms data])).
  { unfold st'. rewrite upload_signal_queueable by done. simpl.
    by rewrite queue_of_set_queue, insert_signal_closing. }
  split; [done |].
  rewrite Hst', enforce_cap_app_one, filter_app.
  rewrite (filter_none (λ s, ticket_of s = t)).
  - simpl. by rewrite filter_cons, decide_True.
  - intros x Hx. apply last_n_elem_of in Hx.
    by apply list_elem_of_filter in Hx as [Hx _].
Qed.

(** The request of the witness, the same request again, the same ticket
    and action for another symbol, and the same ticket and symbol with
    the other opening action: only the second is dropped. *)
Lemma dedup_append_witness :
  let data := trade "M" "NEW_TRADE" 5 "EURUSD" in
  let other_symbol := trade "M" "NEW_TRADE" 5 "GBPUSD" in
  let other_action := trade "M" "NEW_PENDING" 5 "EURUSD" in
  let other_ticket := trade "M" "NEW_TRADE" 6 "EURUSD" in
  let st' := (upload_signal 1000000 1000 data initial).1 in
  queue_of st' (VStr "M") = [stamp 1000000 1000 data]
  ∧ queue_of (upload_signal 2000000 2000 data st').1 (VStr "M")
    = [stamp 1000000 1000 data]
  ∧ queue_of (upload_signal 2000000 2000 other_symbol st').1 (VStr "M")
    = [stamp 1000000 1000 data; stamp 2000000 2000 other_symbol]
  ∧ queue_of (upload_signal 2000000 2000 other_action st').1 (VStr "M")
    = [stamp 1000000 1000 data; stamp 2000000 2000 other_action]
  ∧ queue_of (upload_signal 2000000 2000 other_ticket st').1 (VStr "M")
    = [stamp 1000000 1000 data; stamp 2000000 2000 other_ticket].
Proof.
  intros data other_symbol other_action other_ticket st'.
  assert (Hq : queueable data) by queueable_by_evaluation.
  assert (Ha : get data "action" ∈ opening_actions) by by_evaluation.
  destruct (dedup_append 1000000 1000 data initial Hq Ha) as (H1 & _ & H3).
  assert (Hno : ¬ ∃ x, x ∈ queue_of initial (VStr "M")
                       ∧ get (fields x) "master_ticket"
                         = get data "master_ticket"
                       ∧ get (fields x) "action" = get data "action"
                       ∧ get (fields x) "symbol" = get data "symbol").
  { intros (x & Hx & _). by apply elem_of_nil in Hx. }
  split; [exact (H1 Hno) |]. split.
  { destruct (H3 Hno 2000000 2000) as [H4 _].
    exact (eq_trans H4 (H1 Hno)). }
  assert (Hst' : queue_of st' (VStr "M") = [stamp 1000000 1000 data])
    by exact (H1 Hno).
  split; [| split].
  - destruct (dedup_append 2000000 2000 other_symbol st'
                ltac:(queueable_by_evaluation) ltac:(by_evaluation))
      as (H & _ & _).
    refine (eq_trans (H _) _); [| reflexivity].
    intros (x & Hx & _ & _ & Hs). change (x ∈ queue_of st' (VStr "M")) in Hx.
    rewrite Hst' in Hx. apply list_elem_of_singleton in Hx. subst x.
    vm_compute in Hs. discriminate Hs.
  - destruct (dedup_append 2000000 2000 other_action st'
                ltac:(queueable_by_evaluation) ltac:(by_evaluation))
      as (H & _ & _).
    refine (eq_trans (H _) _); [| reflexivity].
    intros (x & Hx & _ & Hac & _).
    change (x ∈ queue_of st' (VStr "M")) in Hx.
    rewrite Hst' in Hx. apply list_elem_of_singleton in Hx. subst x.
    vm_compute in Hac. discriminate Hac.
  - destruct (dedup_append 2000000 2000 other_ticket st'
                ltac:(queueable_by_evaluation) ltac:(by_evaluation))
      as (H & _ & _).
    refine (eq_trans (H _) _); [| reflexivity].
    intros (x & Hx & Ht & _).
    change (x ∈ queue_of st' (VStr "M")) in Hx.
    rewrite Hst' in Hx. apply list_elem_of_singleton in Hx. subst x.
    vm_compute in Ht. discriminate Ht.
Defined.

Lemma supersede_and_append_witness :
  let opened :=
    (upload_signal 1000000 1000 (trade "M" "NEW_TRADE" 5 "EURUSD")
       initial).1 in
  let close := trade "M" "CLOSE_TRADE" 5 "EURUSD" in
  queue_of opened (VStr "M")
    = [stamp 1000000 1000 (trade "M" "NEW_TRADE" 5 "EURUSD")]
  ∧ queue_of (upload_signal 2000000 2000 close opened).1 (VStr "M")
    = [stamp 2000000 2000 close].
Proof.
  intros opened close. split; [reflexivity |].
  assert (Hq : queueable close) by queueable_by_evaluation.
  assert (Ha : get close "action" ∈ closing_actions) by by_evaluation.
  destruct (supersede_and_append 2000000 2000 close opened Hq Ha)
    as [H1 _].
  exact H1.
Defined.

(** ** What each route does to the queues *)

Lemma upload_signal_cases now now_ms data st :
  (upload_signal now now_ms data st).1 = st ∨ queueable data.
Proof.
  unfold upload_signal.
  case_decide; [by left |].
  destruct (negb (truthy (get data "master_id"))
            || negb (truthy (get data "action"))
            || bool_decide (get data "master_ticket" = VNone)) eqn:Hreq;
    [by left |].
  apply orb_false_iff in Hreq as [Hreq Ht].
  apply orb_false_iff in Hreq as [Hm Ha].
  apply negb_false_iff in Hm.
  apply bool_decide_eq_false in Ht.
  case_decide as Hv; [by left |].
  case_decide as Hs; [by left |].
  case_decide as Hn; [by left |].
  right.
  split; [by rewrite Hm |]. split; [done |].
  split; [done |]. split; [done |].
  destruct (decide (get data "action" ∈ symbol_optional)); [by left |].
  right. destruct (data !! "symbol") eqn:E; [by eexists |].
  exfalso. by apply Hs.
Qed.

Lemma register_slave_queue now data st :
  signals_queue (register_slave now data st).1 = signals_queue st.
Proof.
  unfold register_slave. case_decide; [done |].
  destruct (_ || _); [done |]. simpl. done.
Qed.

Lemma clear_signals_queue data st m :
  signals_queue (clear_signals data st).1 !! m = signals_queue st !! m
  ∨ (m = get data "master_id"
     ∧ signals_queue (clear_signals data st).1 !! m = None).
Proof.
  unfold clear_signals.
  destruct (if truthy (get data "slave_id") then _ else _);
    destruct (if truthy (get data "master_id") then _ else _); simpl;
    try (by left);
    (destruct (decide (m = get data "master_id")) as [-> | Hne];
     [right; by rewrite lookup_delete_eq
     | left; by rewrite lookup_delete_ne]).
Qed.

Lemma cleanup_pass_queue now st m q' :
  signals_queue (cleanup_pass now st) !! m = Some q' →
  ∃ q, signals_queue st !! m = Some q ∧ q' = filter (retained now) q.
Proof.
  unfold cleanup_pass. simpl. rewrite lookup_omap.
  destruct (signals_queue st !! m) as [q |]; [| done]. simpl.
  unfold sweep_queue. destruct (filter (retained now) q) eqn:E; [done |].
  intros [= <-]. by exists q.
Qed.

Section Runs.

Variable set_iter : pyset → list string.

Lemma slave_poll_queue now slave_id master_id st :
  signals_queue (slave_poll set_iter now slave_id master_id st).1
  = signals_queue st.
Proof.
  unfold slave_poll.
  destruct slave_id as [s |], master_id as [m |]; try done.
  case_decide; [done |]. unfold deliver. simpl.
  by destruct (signals_queue st !! VStr m).
Qed.

(** Every queue of a state the server can reach has at most 50 entries. *)
Lemma step_queue_length st r :
  (∀ m q, signals_queue st !! m = Some q → (length q ≤ 50)%nat) →
  ∀ m q, signals_queue (step set_iter st r) !! m = Some q →
         (length q ≤ 50)%nat.
Proof.
  intros IH m q. destruct r as [now ms data | now data | now s k | data | now];
    simpl.
  - destruct (upload_signal_cases now ms data st) as [-> | Hq];
      [apply IH |].
    rewrite upload_signal_queueable by done. simpl.
    destruct (decide (get data "master_id" = m)) as [-> | Hne].
    + rewrite lookup_insert_eq. intros [= <-]. apply enforce_cap_length.
    + rewrite lookup_insert_ne by done. apply IH.
  - rewrite register_slave_queue. apply IH.
  - rewrite slave_poll_queue. apply IH.
  - destruct (clear_signals_queue data st m) as [-> | [_ ->]];
      [apply IH | done].
  - intros (q0 & Hq0 & ->)%cleanup_pass_queue.
    pose proof (length_filter (retained now) q0).
    specialize (IH _ _ Hq0). lia.
Qed.

Lemma reachable_queue_length st :
  reachable set_iter st →
  ∀ m q, signals_queue st !! m = Some q → (length q ≤ 50)%nat.
Proof.
  induction 1 as [| st r _ IH]; [done |]. by apply step_queue_length.
Qed.

End Runs.

Lemma last_n_last_n {A} (n k : nat) (l : list A) :
  (n ≤ k)%nat → last_n n (last_n k l) = last_n n l.
Proof.
  intros H. unfold last_n. rewrite length_drop, drop_drop. f_equal. lia.
Qed.

Lemma upload_all_snoc st reqs r :
  upload_all st (reqs ++ [r])
  = (upload_signal r.1.1 r.1.2 r.2 (upload_all st reqs)).1.
Proof. unfold upload_all. by rewrite foldl_app. Qed.

(** Opening requests of one master with pairwise different tickets are
    all queued; the queue holds the last 50 of them. *)
Lemma upload_all_distinct m st reqs :
  queue_of st m = [] →
  Forall (λ r, queueable r.2 ∧ get r.2 "action" ∈ opening_actions
               ∧ get r.2 "master_id" = m) reqs →
  NoDup ((λ r, get r.2 "master_ticket") <$> reqs) →
  queue_of (upload_all st reqs) m
  = last_n 50 ((λ r, stamp r.1.1 r.1.2 r.2) <$> reqs).
Proof.
  intros Hempty. induction reqs as [| r reqs IH] using rev_ind.
  - intros _ _. unfold upload_all. simpl. by rewrite Hempty.
  - rewrite Forall_app, Forall_singleton, fmap_app, NoDup_app.
    intros [Hall (Hq & Ha & Hm)] (Hnd & Hfresh & _).
    specialize (IH Hall Hnd).
    rewrite upload_all_snoc, upload_signal_queueable by done. simpl.
    rewrite Hm, queue_of_set_queue, insert_signal_opening by done.
    unfold is_duplicate. rewrite bool_decide_eq_false_2.
    + rewrite IH, fmap_app, enforce_cap_app_one. simpl.
      rewrite last_n_app_one. f_equal. apply last_n_last_n. lia.
    + rewrite IH, Exists_exists. intros (x & Hx & Hsame & _).
      apply last_n_elem_of, list_elem_of_fmap in Hx as (r' & -> & Hr').
      apply (Hfresh (get r.2 "master_ticket")).
      * rewrite <- Hsame. apply list_elem_of_fmap. by exists r'.
      * simpl. left.
  Qed.

(** C5. No queue of a reachable state holds more than 50 entries; an
    upload keeps the last 50 entries of the queue it has built, dropping
    from the front; and opening requests with pairwise different tickets,
    sent to a master without a queue, leave the last 50 of them queued -
    of 60 requests, the 50 most recent. *)
Theorem queue_capacity (set_iter : pyset → list string) :
  (∀ st, reachable set_iter st →
     ∀ m q, signals_queue st !! m = Some q → (length q ≤ 50)%nat)
  ∧ (∀ now now_ms data st, queueable data →
       let m := get data "master_id" in
       queue_of (upload_signal now now_ms data st).1 m
       = last_n 50 (insert_signal data (stamp now now_ms data)
                      (queue_of st m)))
  ∧ (∀ m st reqs,
       queue_of st m = [] →
       Forall (λ r, queueable r.2 ∧ get r.2 "action" ∈ opening_actions
                    ∧ get r.2 "master_id" = m) reqs →
       NoDup ((λ r, get r.2 "master_ticket") <$> reqs) →
       queue_of (upload_all st reqs) m
       = last_n 50 ((λ r, stamp r.1.1 r.1.2 r.2) <$> reqs)).
Proof.
  split; [| split].
  - apply reachable_queue_length.
  - intros now now_ms data st Hq m.
    rewrite upload_signal_queueable by done. simpl.
    by rewrite queue_of_set_queue, enforce_cap_last_n.
  - apply upload_all_distinct.
Qed.

Lemma queue_capacity_witness :
  queue_of (upload_all initial (burst 60)) (VStr "M")
  = (λ r, stamp r.1.1 r.1.2 r.2) <$> drop 10 (burst 60)
  ∧ length (queue_of (upload_all initial (burst 60)) (VStr "M")) = 50%nat.
Proof.
  destruct (queue_capacity insertion_order) as (_ & _ & H).
  assert (E : queue_of (upload_all initial (burst 60)) (VStr "M")
              = (λ r, stamp r.1.1 r.1.2 r.2) <$> drop 10 (burst 60)).
  { rewrite (H (VStr "M") initial (burst 60));
      [vm_compute; reflexivity | reflexivity | by_evaluation
      | by_evaluation]. }
  split; [exact E |]. rewrite E. vm_compute. reflexivity.
Defined.

(** ** Polling leaves the queues alone *)

Lemma registration_set_slave st mk sk info m s :
  registration (set_slave st mk sk info) m s
  = if decide (m = mk ∧ s = sk) then Some info else registration st m s.
Proof.
  unfold registration, set_slave. simpl.
  destruct (decide (m = mk)) as [-> | Hm].
  - rewrite lookup_insert_eq. simpl.
    destruct (decide (s = sk)) as [-> | Hs].
    + rewrite lookup_insert_eq. by rewrite decide_True.
    + rewrite lookup_insert_ne by done.
      rewrite decide_False by (by intros [_ ?]).
      by destruct (slaves st !! mk).
  - rewrite lookup_insert_ne by done.
    by rewrite decide_False by (by intros [? _]).
Qed.

Lemma queue_of_cleanup_pass now st m :
  queue_of (cleanup_pass now st) m = filter (retained now) (queue_of st m).
Proof.
  unfold queue_of, cleanup_pass. simpl. rewrite lookup_omap.
  destruct (signals_queue st !! m) as [q |]; [| done]. simpl.
  unfold sweep_queue. by destruct (filter (retained now) q).
Qed.

Lemma queue_of_clear_signals data st m :
  queue_of (clear_signals data st).1 m = queue_of st m
  ∨ (get data "master_id" = m ∧ queue_of (clear_signals data st).1 m = []).
Proof.
  unfold queue_of.
  destruct (clear_signals_queue data st m) as [-> | [-> ->]];
    [by left | by right].
Qed.

Section Frame.

Variable set_iter : pyset → list string.

Lemma slave_poll_processed now slave_id master_id st s :
  Some s ≠ VStr <$> slave_id →
  slave_processed_signals
    (slave_poll set_iter now slave_id master_id st).1 !! s
  = slave_processed_signals st !! s.
Proof.
  intros Hs. unfold slave_poll.
  destruct slave_id as [sl |], master_id as [m |]; try done.
  case_decide; [done |]. simpl.
  destruct (signals_queue st !! VStr m); [| done].
  unfold deliver. simpl. rewrite lookup_insert_ne; [done |].
  intros <-. by apply Hs.
Qed.

Lemma slave_poll_registration now slave_id master_id st m s :
  (Some m, Some s) ≠ (VStr <$> master_id, VStr <$> slave_id) →
  registration (slave_poll set_iter now slave_id master_id st).1 m s
  = registration st m s.
Proof.
  intros Hne. unfold slave_poll.
  destruct slave_id as [sl |], master_id as [mk |]; try done.
  case_decide; [done |].
  set (info := SlaveInfo _ now).
  assert (Hreg : registration (set_slave st (VStr mk) (VStr sl) info) m s
                 = registration st m s).
  { rewrite registration_set_slave, decide_False; [done |].
    intros [-> ->]. by apply Hne. }
  destruct (signals_queue _ !! VStr mk); [| done].
  by destruct (deliver _ _ _).
Qed.

Lemma slave_poll_registers now s m st :
  s ≠ "" → m ≠ "" →
  registration (slave_poll set_iter now (Some s) (Some m) st).1
    (VStr m) (VStr s)
  = Some (SlaveInfo
            (match registration st (VStr m) (VStr s) with
             | Some info => registered_at info
             | None => now
             end) now).
Proof.
  intros Hs Hm. unfold slave_poll.
  rewrite decide_False by (by intros [? | ?]).
  set (info := SlaveInfo _ now).
  assert (Hreg : registration (set_slave st (VStr m) (VStr s) info)
                   (VStr m) (VStr s) = Some info).
  { by rewrite registration_set_slave, decide_True. }
  assert (Hinfo : info = SlaveInfo
            (match registration st (VStr m) (VStr s) with
             | Some info => registered_at info
             | None => now
             end) now).
  { unfold info, registration. destruct (slaves st !! VStr m); [done |].
    simpl. by rewrite lookup_empty. }
  rewrite <- Hinfo.
  destruct (signals_queue _ !! VStr m); [| done].
  by destruct (deliver _ _ _).
Qed.

Lemma insert_signal_length data sig q :
  (length (insert_signal data sig q) ≤ S (length q))%nat.
Proof.
  unfold insert_signal. repeat case_decide;
    [| | destruct (is_duplicate data q)];
    rewrite ?length_app; simpl; try lia.
  pose proof (length_filter
    (λ s, get (fields s) "master_ticket" ≠ get data "master_ticket") q).
  lia.
Qed.

Lemma insert_signal_keeps data sig q x :
  x ∈ q →
  ¬ (get data "action" ∈ closing_actions
     ∧ ticket_of x = get data "master_ticket") →
  x ∈ insert_signal data sig q.
Proof.
  intros Hx Hn. unfold insert_signal. repeat case_decide;
    [| | destruct (is_duplicate data q)];
    rewrite ?elem_of_app, ?list_elem_of_filter; tauto.
Qed.

Lemma step_may_remove st r m x :
  x ∈ queue_of st m →
  x ∉ queue_of (step set_iter st r) m →
  may_remove st r m x.
Proof.
  intros Hx Hgone.
  destruct r as [now ms data | now data | now s k | data | now]; simpl in *.
  - destruct (upload_signal_cases now ms data st) as [E | Hq];
      [by rewrite E in Hgone |].
    rewrite upload_signal_queueable in Hgone by done. simpl in Hgone.
    destruct (decide (get data "master_id" = m)) as [Hm | Hm];
      [| by rewrite queue_of_set_queue_ne in Hgone].
    rewrite Hm, queue_of_set_queue in Hgone.
    split; [done |]. split; [done |].
    destruct (decide (50 ≤ length (queue_of st m))%nat); [by right |].
    left. apply dec_stable. intros Hn. apply Hgone.
    rewrite enforce_cap_small.
    + by apply insert_signal_keeps.
    + pose proof (insert_signal_length data (stamp now ms data)
                    (queue_of st m)). lia.
  - apply Hgone. unfold queue_of in *. by rewrite register_slave_queue.
  - apply Hgone. unfold queue_of in *. by rewrite slave_poll_queue.
  - destruct (queue_of_clear_signals data st m) as [E | [E _]];
      [by rewrite E in Hgone | done].
  - rewrite queue_of_cleanup_pass, list_elem_of_filter in Hgone.
    intros Hret. by apply Hgone.
Qed.

End Frame.

(** C10. A poll leaves every queue as it was: the queue map after the
    poll is the one before.  It leaves the processed set of every other
    slave and the registration of every other pair as they were, and of
    the polled pair it keeps [registered_at] and sets [last_poll].  An
    entry that a request takes out of a queue is taken out by an upload
    that supersedes it or overflows the cap, by a sweep or by a clear. *)
Theorem slave_poll_frame (set_iter : pyset → list string) :
  (∀ now slave_id master_id st,
     let st' := (slave_poll set_iter now slave_id master_id st).1 in
     signals_queue st' = signals_queue st
     ∧ (∀ s, Some s ≠ VStr <$> slave_id →
          slave_processed_signals st' !! s
          = slave_processed_signals st !! s)
     ∧ (∀ m s, (Some m, Some s) ≠ (VStr <$> master_id, VStr <$> slave_id) →
          registration st' m s = registration st m s))
  ∧ (∀ now s m st, s ≠ "" → m ≠ "" →
       registration (slave_poll set_iter now (Some s) (Some m) st).1
         (VStr m) (VStr s)
       = Some (SlaveInfo
                 (match registration st (VStr m) (VStr s) with
                  | Some info => registered_at info
                  | None => now
                  end) now))
  ∧ (∀ st r m x,
       x ∈ queue_of st m →
       x ∉ queue_of (step set_iter st r) m →
       may_remove st r m x).
Proof.
  split; [| split].
  - intros now slave_id master_id st st'. split; [| split].
    + apply slave_poll_queue.
    + intros s. apply slave_poll_processed.
    + intros m s. apply slave_poll_registration.
  - apply slave_poll_registers.
  - apply step_may_remove.
Qed.

(** ** Delivery *)

Lemma find_unprocessed_Some processed q x :
  find_unprocessed processed q = Some x →
  x ∈ q ∧ signal_id x ≠ "" ∧ signal_id x ∉ processed.
Proof.
  induction q as [| y q IH]; simpl; [done |].
  case_decide as Hy.
  - intros [= <-]. split; [left | done].
  - intros [Hx Hp]%IH. split; [by right | done].
Qed.

Lemma find_unprocessed_skip processed y q :
  signal_id y ∈ processed →
  find_unprocessed processed (y :: q) = find_unprocessed processed q.
Proof. intros H. simpl. rewrite decide_False; [done |]. by intros [_ ?]. Qed.

Lemma find_unprocessed_head processed y q :
  signal_id y ≠ "" → signal_id y ∉ processed →
  find_unprocessed processed (y :: q) = Some y.
Proof. intros H1 H2. simpl. by rewrite decide_True. Qed.

Lemma set_add_length x s : (length (set_add x s) ≤ S (length s))%nat.
Proof.
  unfold set_add. case_decide; rewrite ?length_app; simpl; lia.
Qed.

Lemma set_add_new x s : x ∉ s → set_add x s = s ++ [x].
Proof. intros H. unfold set_add. by rewrite decide_False. Qed.

Lemma set_add_elem_of x s : x ∈ set_add x s.
Proof.
  unfold set_add. case_decide; [done |]. apply elem_of_app. right. left.
Qed.

Lemma set_of_list_length l : (length (set_of_list l) ≤ length l)%nat.
Proof.
  unfold set_of_list.
  assert (H : ∀ acc, (length (foldl (λ s x, set_add x s) acc l)
                      ≤ length acc + length l)%nat).
  { induction l as [| x l IH]; intros acc; simpl; [lia |].
    specialize (IH (set_add x acc)).
    pose proof (set_add_length x acc). lia. }
  apply (H []).
Qed.

Section Delivery.

Variable set_iter : pyset → list string.

Lemma trim_processed_length s :
  (length (trim_processed set_iter s) ≤ 200)%nat.
Proof.
  unfold trim_processed. case_decide; [| lia].
  etrans; [apply set_of_list_length |]. rewrite last_n_length. lia.
Qed.

Lemma trim_processed_small s :
  (length s ≤ 200)%nat → trim_processed set_iter s = s.
Proof. intros H. unfold trim_processed. case_decide; [lia | done]. Qed.

(** An accepted poll of a master that has a queue: the response and the
    processed set of the slave are those of [deliver]. *)
Lemma slave_poll_deliver now s m st q :
  s ≠ "" → m ≠ "" →
  signals_queue st !! VStr m = Some q →
  let r := deliver set_iter q (tracker_of st (VStr s)) in
  let p := slave_poll set_iter now (Some s) (Some m) st in
  p.2 = PollOk (option_list r.2)
  ∧ tracker_of p.1 (VStr s) = r.1
  ∧ signals_queue p.1 = signals_queue st.
Proof.
  intros Hs Hm Hq r p. subst r p. unfold slave_poll.
  rewrite decide_False by (by intros [? | ?]).
  simpl. rewrite Hq. unfold tracker_of, deliver. simpl.
  by rewrite lookup_insert_eq.
Qed.

Lemma slave_poll_no_queue now slave_id m st :
  signals_queue st !! VStr m = None →
  delivered (slave_poll set_iter now slave_id (Some m) st).2 = [].
Proof.
  intros Hq. unfold slave_poll. destruct slave_id as [s |]; [| done].
  case_decide; [done |]. simpl. by rewrite Hq.
Qed.

Lemma slave_poll_delivered_cases now slave_id master_id st x :
  x ∈ delivered (slave_poll set_iter now slave_id master_id st).2 →
  ∃ s m q, slave_id = Some s ∧ master_id = Some m
           ∧ signals_queue st !! VStr m = Some q
           ∧ find_unprocessed (tracker_of st (VStr s)) q = Some x.
Proof.
  unfold slave_poll.
  destruct slave_id as [s |], master_id as [m |];
    try (by intros ?%elem_of_nil).
  case_decide; [by intros ?%elem_of_nil |]. simpl.
  destruct (signals_queue st !! VStr m) as [q |] eqn:Hq;
    [| by intros ?%elem_of_nil].
  unfold deliver, tracker_of. simpl.
  destruct (find_unprocessed _ q) as [y |] eqn:E;
    [| by intros ?%elem_of_nil].
  simpl. intros ->%list_elem_of_singleton. by exists s, m, q.
Qed.

End Delivery.

(** A delivered signal is marked: its id is in the processed set of the
    slave after the poll, whenever the set held fewer than 200 ids before
    the poll (so that line 305 does not trim it). *)
Lemma delivered_is_tracked (set_iter : pyset → list string) now s m st Y :
  (length (tracker_of st (VStr s)) < 200)%nat →
  Y ∈ delivered (slave_poll set_iter now (Some s) (Some m) st).2 →
  signal_id Y ∈ tracker_of (slave_poll set_iter now (Some s) (Some m) st).1
                  (VStr s).
Proof.
  intros Hlen HY.
  pose proof HY as
    (s' & m' & q & [= <-] & [= <-] & Hq & Hfind)%slave_poll_delivered_cases.
  assert (Hs : s ≠ "" ∧ m ≠ "").
  { unfold slave_poll in HY.
    case_decide as Hd; [by apply elem_of_nil in HY |].
    split; intros ->; apply Hd; [by left | by right]. }
  destruct Hs as [Hs Hm].
  destruct (slave_poll_deliver set_iter now s m st q Hs Hm Hq)
    as (_ & -> & _).
  unfold deliver. rewrite Hfind. simpl.
  rewrite trim_processed_small.
  - apply set_add_elem_of.
  - pose proof (set_add_length (signal_id Y) (tracker_of st (VStr s))).
    lia.
Qed.

(** C2. A poll never hands a slave a signal whose id is in the processed
    set of that slave at the time of the poll, whether or not the signal
    is still in the queue of the master. *)
Theorem at_most_once (set_iter : pyset → list string) now s master_id st X :
  signal_id X ∈ tracker_of st (VStr s) →
  X ∉ delivered (slave_poll set_iter now (Some s) master_id st).2.
Proof.
  intros Hin.
  intros (s' & m & q & [= <-] & -> & Hq & Hfind)%slave_poll_delivered_cases.
  by apply find_unprocessed_Some in Hfind as (_ & _ & Hnot).
Qed.

(** ** Invariants of the reachable states *)

Lemma append_nonempty_r (s1 s2 : string) : s2 ≠ "" → s1 +:+ s2 ≠ "".
Proof. intros H. by destruct s1. Qed.

Lemma make_signal_id_nonempty t a now_ms : make_signal_id t a now_ms ≠ "".
Proof. unfold make_signal_id. by apply append_nonempty_r. Qed.

Lemma insert_signal_elem_of data sig q x :
  x ∈ insert_signal data sig q → x ∈ q ∨ x = sig.
Proof.
  unfold insert_signal. repeat case_decide;
    [| | destruct (is_duplicate data q)];
    rewrite ?elem_of_app, ?list_elem_of_filter, ?list_elem_of_singleton;
    tauto.
Qed.

Section Invariants.

Variable set_iter : pyset → list string.

(** An entry of a queue after a request was there before, or is the
    entry that the request, an upload, has stamped. *)
Lemma step_queue_elem st r m x :
  x ∈ queue_of (step set_iter st r) m →
  x ∈ queue_of st m
  ∨ ∃ now now_ms data,
      r = Upload now now_ms data ∧ x = stamp now now_ms data.
Proof.
  destruct r as [now ms data | now data | now s k | data | now]; simpl.
  - destruct (upload_signal_cases now ms data st) as [-> | Hq];
      [by left |].
    rewrite upload_signal_queueable by done. simpl.
    destruct (decide (get data "master_id" = m)) as [<- | Hm];
      [| rewrite queue_of_set_queue_ne by done; by left].
    rewrite queue_of_set_queue.
    intros [Hx | ->]%enforce_cap_elem_of%insert_signal_elem_of;
      [by left | right; by exists now, ms, data].
  - unfold queue_of. rewrite register_slave_queue. by left.
  - unfold queue_of. rewrite slave_poll_queue. by left.
  - destruct (queue_of_clear_signals data st m) as [-> | [_ ->]];
      [by left | by intros ?%elem_of_nil].
  - rewrite queue_of_cleanup_pass.
    intros [_ Hx]%list_elem_of_filter. by left.
Qed.

(** Every queued entry of a reachable state has a non-empty id, so the
    truth test of line 289 never fails on it. *)
Lemma reachable_signal_id_nonempty st :
  reachable set_iter st →
  ∀ m x, x ∈ queue_of st m → signal_id x ≠ "".
Proof.
  induction 1 as [| st r _ IH]; intros m x.
  - unfold queue_of, initial. simpl. rewrite lookup_empty.
    by intros ?%elem_of_nil.
  - intros [Hx | (now & ms & data & _ & ->)]%step_queue_elem;
      [by eapply IH |].
    apply make_signal_id_nonempty.
Qed.

Lemma step_tracker_length st r :
  (∀ s, length (tracker_of st s) ≤ 200)%nat →
  ∀ s, (length (tracker_of (step set_iter st r) s) ≤ 200)%nat.
Proof.
  intros IH sk.
  destruct r as [now ms data | now data | now s k | data | now]; simpl.
  - destruct (upload_signal_cases now ms data st) as [-> | Hq];
      [apply IH |].
    rewrite upload_signal_queueable by done. apply IH.
  - unfold register_slave. case_decide; [apply IH |].
    destruct (_ || _); [apply IH |]. simpl.
    destruct (slave_processed_signals st !! get data "slave_id") eqn:E;
      [apply IH |].
    unfold tracker_of. simpl.
    destruct (decide (get data "slave_id" = sk)) as [<- | Hne].
    + rewrite lookup_insert_eq. simpl. lia.
    + rewrite lookup_insert_ne by done. apply IH.
  - unfold slave_poll. destruct s as [s |], k as [k |]; try apply IH.
    case_decide; [apply IH |]. simpl.
    destruct (signals_queue st !! VStr k); [| apply IH].
    unfold deliver, tracker_of. simpl.
    destruct (decide (VStr s = sk)) as [<- | Hne].
    + rewrite lookup_insert_eq. simpl. apply trim_processed_length.
    + rewrite lookup_insert_ne by done. apply IH.
  - unfold clear_signals.
    destruct (if truthy (get data "slave_id") then _ else _) eqn:E1;
      destruct (if truthy (get data "master_id") then _ else _);
      unfold tracker_of; simpl; try apply IH;
      (destruct (decide (get data "slave_id" = sk)) as [<- | Hne];
       [rewrite lookup_insert_eq; simpl; lia
       | rewrite lookup_insert_ne by done; apply IH]).
  - apply IH.
Qed.

(** No processed set of a reachable state holds more than 200 ids. *)
Lemma reachable_tracker_length st :
  reachable set_iter st →
  ∀ s, (length (tracker_of st s) ≤ 200)%nat.
Proof.
  induction 1 as [| st r _ IH]; intros s.
  - unfold tracker_of, initial. simpl. rewrite lookup_empty. simpl. lia.
  - by apply step_tracker_length.
Qed.

Lemma reachable_run rs : reachable set_iter (run set_iter rs).
Proof.
  unfold run. induction rs as [| r rs IH] using rev_ind.
  - constructor.
  - rewrite foldl_app. simpl. by constructor.
Qed.

End Invariants.

(** ** First in, first out *)

Section Fifo.

Variable set_iter : pyset → list string.

(** A poll that finds an unprocessed entry, by a slave whose processed
    set holds fewer than 200 ids: the entry is delivered, its id is
    added at the end of the set, the queue stays. *)
Lemma slave_poll_found now s m st q X :
  s ≠ "" → m ≠ "" →
  signals_queue st !! VStr m = Some q →
  find_unprocessed (tracker_of st (VStr s)) q = Some X →
  (length (tracker_of st (VStr s)) < 200)%nat →
  let p := slave_poll set_iter now (Some s) (Some m) st in
  delivered p.2 = [X]
  ∧ tracker_of p.1 (VStr s) = tracker_of st (VStr s) ++ [signal_id X]
  ∧ signals_queue p.1 !! VStr m = Some q.
Proof.
  intros Hs Hm Hq Hfind Hlen p.
  destruct (slave_poll_deliver set_iter now s m st q Hs Hm Hq)
    as (Hr & Ht & Hsq).
  fold p in Hr, Ht, Hsq. rewrite Hr, Ht, Hsq.
  unfold deliver. rewrite Hfind. simpl.
  apply find_unprocessed_Some in Hfind as (_ & _ & Hnew).
  rewrite set_add_new by done.
  rewrite trim_processed_small by (rewrite length_app; simpl; lia).
  done.
Qed.

Lemma slave_poll_nothing now s m st q :
  s ≠ "" → m ≠ "" →
  signals_queue st !! VStr m = Some q →
  find_unprocessed (tracker_of st (VStr s)) q = None →
  delivered (slave_poll set_iter now (Some s) (Some m) st).2 = [].
Proof.
  intros Hs Hm Hq Hfind.
  destruct (slave_poll_deliver set_iter now s m st q Hs Hm Hq)
    as (-> & _ & _).
  unfold deliver. by rewrite Hfind.
Qed.

Lemma fifo_three_entries st m s A B C n1 n2 n3 n4 :
  reachable set_iter st → s ≠ "" → m ≠ "" →
  signals_queue st !! VStr m = Some [A; B; C] →
  Forall (λ X, signal_id X ∉ tracker_of st (VStr s)) [A; B; C] →
  NoDup (signal_id <$> [A; B; C]) →
  (length (tracker_of st (VStr s)) ≤ 197)%nat →
  polls set_iter [n1; n2; n3; n4] s m st = [[A]; [B]; [C]; []].
Proof.
  intros Hreach Hs Hm Hq Hnew Hnd Hlen.
  assert (Hids : ∀ X, X ∈ [A; B; C] → signal_id X ≠ "").
  { intros X HX.
    apply (reachable_signal_id_nonempty set_iter st Hreach (VStr m)).
    unfold queue_of. by rewrite Hq. }
  pose proof (Hids A ltac:(in_snoc_list)) as HA.
  pose proof (Hids B ltac:(in_snoc_list)) as HB.
  pose proof (Hids C ltac:(in_snoc_list)) as HC.
  apply Forall_cons in Hnew as [HnA Hnew].
  apply Forall_cons in Hnew as [HnB Hnew].
  apply Forall_cons in Hnew as [HnC _].
  simpl in Hnd.
  apply NoDup_cons in Hnd as [HAB Hnd].
  apply NoDup_cons in Hnd as [HBC _].
  rewrite not_elem_of_cons in HAB. destruct HAB as [HAB HAC].
  rewrite not_elem_of_cons in HAC. destruct HAC as [HAC _].
  rewrite not_elem_of_cons in HBC. destruct HBC as [HBC _].
  cbn [polls].
  (* first poll *)
  destruct (slave_poll_found n1 s m st [A; B; C] A Hs Hm Hq)
    as (D1 & T1 & Q1); [by apply find_unprocessed_head | lia |].
  set (p1 := slave_poll set_iter n1 (Some s) (Some m) st) in *.
  (* second poll *)
  destruct (slave_poll_found n2 s m p1.1 [A; B; C] B Hs Hm Q1)
    as (D2 & T2 & Q2).
  { rewrite T1, find_unprocessed_skip by in_snoc_list.
    apply find_unprocessed_head; [done | in_snoc_list]. }
  { rewrite T1, length_app. simpl. lia. }
  set (p2 := slave_poll set_iter n2 (Some s) (Some m) p1.1) in *.
  rewrite T1 in T2.
  (* third poll *)
  destruct (slave_poll_found n3 s m p2.1 [A; B; C] C Hs Hm Q2)
    as (D3 & T3 & Q3).
  { rewrite T2, !find_unprocessed_skip by in_snoc_list.
    apply find_unprocessed_head; [done | in_snoc_list]. }
  { rewrite T2, !length_app. simpl. lia. }
  set (p3 := slave_poll set_iter n3 (Some s) (Some m) p2.1) in *.
  rewrite T2 in T3.
  (* fourth poll *)
  rewrite D1, D2, D3.
  rewrite (slave_poll_nothing n4 s m p3.1 [A; B; C]); try done.
  rewrite T3, !find_unprocessed_skip by in_snoc_list. done.
Qed.

End Fifo.

(** First in, first out, where no slip of the code interferes. In a
    reachable state, when the queue of a master holds
    [A, B, C] with three different ids, and a slave has processed none of
    them and at most 197 ids in all, four successive polls of that master
    by that slave deliver [A], then [B], then [C], then nothing.  A poll
    of a master without a queue delivers nothing. *)
Theorem fifo_delivery (set_iter : pyset → list string) :
  (∀ st m s A B C n1 n2 n3 n4,
     reachable set_iter st → s ≠ "" → m ≠ "" →
     signals_queue st !! VStr m = Some [A; B; C] →
     Forall (λ X, signal_id X ∉ tracker_of st (VStr s)) [A; B; C] →
     NoDup (signal_id <$> [A; B; C]) →
     (length (tracker_of st (VStr s)) ≤ 197)%nat →
     polls set_iter [n1; n2; n3; n4] s m st = [[A]; [B]; [C]; []])
  ∧ (∀ st m slave_id now,
       signals_queue st !! VStr m = None →
       delivered (slave_poll set_iter now slave_id (Some m) st).2 = []).
Proof.
  split.
  - apply fifo_three_entries.
  - intros st m slave_id now. apply slave_poll_no_queue.
Qed.

Lemma fifo_delivery_witness :
  let st := run insertion_order (uploads (burst 3)) in
  polls insertion_order [4000000; 5000000; 6000000; 7000000] "S" "M" st
  = [[stamp 1000000 1000 (trade "M" "NEW_TRADE" 1 "EURUSD")];
     [stamp 2000000 2000 (trade "M" "NEW_TRADE" 2 "EURUSD")];
     [stamp 3000000 3000 (trade "M" "NEW_TRADE" 3 "EURUSD")];
     []]
  ∧ delivered (slave_poll insertion_order 0 (Some "S") (Some "M") initial).2 = [].
Proof.
  intros st. destruct (fifo_delivery insertion_order) as [H1 H2]. split.
  - apply H1.
    + apply reachable_run.
    + done.
    + done.
    + vm_compute. reflexivity.
    + by_evaluation.
    + by_evaluation.
    + vm_compute. lia.
  - apply H2. reflexivity.
Defined.

(** First in, first out does not hold of every queue and every slave.
    It fails in two ways.  With insertion-ordered sets: of
    three MODIFY_TRADE entries for ticket 7, the first two stamped in one
    millisecond and so with one id, the second is never delivered.  With
    sets iterated in reverse: a slave that has processed 200 ids loses the
    id of the first entry at once and is handed that entry again. *)
Lemma fifo_as_stated_fails :
  ¬ fifo_as_stated insertion_order ∧ ¬ fifo_of_distinct_ids reverse_order.
Proof.
  split.
  - intros H.
    specialize (H (run insertion_order (uploads modify_burst)) "M" "S"
      (stamp 1000100 1000 (trade "M" "MODIFY_TRADE" 7 "EURUSD"))
      (stamp 1000900 1000 (trade "M" "MODIFY_TRADE" 7 "EURUSD"))
      (stamp 1001200 1001 (trade "M" "MODIFY_TRADE" 7 "EURUSD"))
      2000000 3000000 4000000 5000000).
    assert (E : map (map signal_id)
             (
              polls insertion_order [2000000; 3000000; 4000000; 5000000] "S" "M"
                (run insertion_order (uploads modify_burst)))
            = [["7_MODIFY_TRADE_1000"]; ["7_MODIFY_TRADE_1001"]; []; []])
      by (vm_compute; reflexivity).
    rewrite H in E.
    + vm_compute in E. discriminate E.
    + apply reachable_run.
    + done.
    + done.
    + vm_compute. reflexivity.
    + by_evaluation.
  - intros H.
    specialize (H (run reverse_order fill_tracker) "M" "S"
      (stamp 201000000 201000 (trade "M" "NEW_TRADE" 201 "EURUSD"))
      (stamp 202000000 202000 (trade "M" "NEW_TRADE" 202 "EURUSD"))
      (stamp 203000000 203000 (trade "M" "NEW_TRADE" 203 "EURUSD"))
      300000000 301000000 302000000 303000000).
    assert (E : map (map signal_id)
             (
              polls reverse_order [300000000; 301000000; 302000000; 303000000]
                "S" "M" (run reverse_order fill_tracker))
            = [["201_NEW_TRADE_201000"]; ["201_NEW_TRADE_201000"];
               ["201_NEW_TRADE_201000"]; ["201_NEW_TRADE_201000"]])
      by (vm_compute; reflexivity).
    rewrite H in E.
    + vm_compute in E. discriminate E.
    + apply reachable_run.
    + done.
    + done.
    + vm_compute. reflexivity.
    + by_evaluation.
    + by_evaluation.
Qed.

(** C1. First in, first out is what [slave_poll] is written for (line
    285), and it fails on two inputs that the code can receive.  The
    queue built by three MODIFY_TRADE requests for ticket 7, two of them
    stamped in one millisecond: a slave that has processed nothing is
    handed the first and the third entry, never the second.  The queue
    [A, B, C] of three requests with different ids, polled by a slave
    that has processed 200 other ids: with sets iterated in reverse the
    trim drops the id of [A] at once and [A] is handed out four times;
    with sets iterated in insertion order the same input is served
    [A], [B], [C], nothing. *)
Theorem fifo_breaks_on_repeated_id_and_on_trim :
  let A7 := stamp 1000100 1000 (trade "M" "MODIFY_TRADE" 7 "EURUSD") in
  let B7 := stamp 1000900 1000 (trade "M" "MODIFY_TRADE" 7 "EURUSD") in
  let C7 := stamp 1001200 1001 (trade "M" "MODIFY_TRADE" 7 "EURUSD") in
  let st7 := run insertion_order (uploads modify_burst) in
  let A := stamp 201000000 201000 (trade "M" "NEW_TRADE" 201 "EURUSD") in
  let B := stamp 202000000 202000 (trade "M" "NEW_TRADE" 202 "EURUSD") in
  let C := stamp 203000000 203000 (trade "M" "NEW_TRADE" 203 "EURUSD") in
  let nows := [300000000; 301000000; 302000000; 303000000] in
  (signals_queue st7 !! VStr "M" = Some [A7; B7; C7]
   ∧ tracker_of st7 (VStr "S") = []
   ∧ polls insertion_order nows "S" "M" st7 = [[A7]; [C7]; []; []])
  ∧ (signals_queue (run reverse_order fill_tracker) !! VStr "M"
     = Some [A; B; C]
     ∧ length (tracker_of (run reverse_order fill_tracker) (VStr "S"))
       = 200%nat
     ∧ Forall (λ X, signal_id X
                    ∉ tracker_of (run reverse_order fill_tracker) (VStr "S"))
         [A; B; C]
     ∧ polls reverse_order nows "S" "M" (run reverse_order fill_tracker)
       = [[A]; [A]; [A]; [A]]
     ∧ polls insertion_order nows "S" "M"
         (run insertion_order fill_tracker)
       = [[A]; [B]; [C]; []]).
Proof.
  intros A7 B7 C7 st7 A B C nows. split.
  - split; [vm_compute; reflexivity |].
    split; vm_compute; reflexivity.
  - split; [vm_compute; reflexivity |].
    split; [vm_compute; reflexivity |].
    split; [by_evaluation |].
    split; vm_compute; reflexivity.
Qed.

(** ** The processed set and its trim *)

Lemma set_of_list_NoDup l : NoDup l → set_of_list l = l.
Proof.
  unfold set_of_list.
  assert (H : ∀ acc, NoDup (acc ++ l) →
                     foldl (λ s x, set_add x s) acc l = acc ++ l).
  { induction l as [| x l IH]; intros acc Hnd; simpl.
    - by rewrite app_nil_r.
    - rewrite cons_middle, app_assoc in Hnd |- *.
      rewrite <- (IH (acc ++ [x]) Hnd). f_equal.
      apply set_add_new.
      apply NoDup_app in Hnd as (Hnd & _ & _).
      apply NoDup_app in Hnd as (_ & Hx & _).
      intros Hin. apply (Hx x Hin). left. }
  intros Hnd. apply (H [] Hnd).
Qed.

(** Were a set iterated in insertion order, the trim would keep the 200
    ids added last. *)
Lemma trim_processed_insertion_order s :
  NoDup s → trim_processed insertion_order s = last_n 200 s.
Proof.
  intros Hnd. unfold trim_processed, insertion_order.
  case_decide.
  - apply set_of_list_NoDup. unfold last_n.
    eapply sublist_NoDup; [done | apply sublist_drop].
  - symmetry. apply last_n_all. lia.
Qed.

(** C6. The trim of lines 305-307 keeps 200 ids but not the 200 added
    last: it keeps the last 200 in the iteration order of the set.  With
    a set iterated in reverse, a slave that has processed 200 ids and is
    handed one more signal loses the id of that signal, the newest, and
    keeps the oldest. *)
Theorem trim_drops_newest_keeps_oldest :
  let st := run reverse_order fill_tracker in
  let p := slave_poll reverse_order 300000000 (Some "S") (Some "M") st in
  length (tracker_of st (VStr "S")) = 200%nat
  ∧ head (tracker_of st (VStr "S")) = Some "1_NEW_TRADE_1000"
  ∧ signal_id <$> delivered p.2 = ["201_NEW_TRADE_201000"]
  ∧ length (tracker_of p.1 (VStr "S")) = 200%nat
  ∧ ("201_NEW_TRADE_201000" ∉ tracker_of p.1 (VStr "S"))
  ∧ ("1_NEW_TRADE_1000" ∈ tracker_of p.1 (VStr "S")).
Proof.
  intros st p.
  assert (E : tracker_of p.1 (VStr "S") = rev (tracker_of st (VStr "S")))
    by (vm_compute; reflexivity).
  assert (E0 : tracker_of st (VStr "S")
               = (λ r, signal_id (stamp r.1.1 r.1.2 r.2)) <$> burst 200)
    by (vm_compute; reflexivity).
  split; [by rewrite E0 |]. split; [by rewrite E0 |].
  split; [vm_compute; reflexivity |].
  split; [rewrite E, length_rev; by rewrite E0 |].
  rewrite E, E0. split; by_evaluation.
Qed.

(** ** Signal ids *)

Lemma make_signal_id_inj t a ms1 ms2 :
  make_signal_id t a ms1 = make_signal_id t a ms2 → ms1 = ms2.
Proof.
  unfold make_signal_id. intros H.
  do 4 apply String.app_inj in H. by apply pretty_Z_inj in H.
Qed.

(** A MODIFY request is always appended. *)
Lemma modify_always_appended now now_ms data st :
  queueable data →
  get data "action" ∈ modify_actions →
  queue_of (upload_signal now now_ms data st).1 (get data "master_id")
  = last_n 50 (queue_of st (get data "master_id")
               ++ [stamp now now_ms data]).
Proof.
  intros Hq Ha. rewrite upload_signal_queueable by done. simpl.
  by rewrite queue_of_set_queue, insert_signal_modify, enforce_cap_last_n.
Qed.

(** C7. Three MODIFY_TRADE requests for ticket 7 in a row are all queued,
    but the two that are stamped within one millisecond get one and the
    same id. *)
Theorem signal_id_repeats_within_millisecond :
  let q := queue_of (upload_all initial modify_burst) (VStr "M") in
  q = (λ r, stamp r.1.1 r.1.2 r.2) <$> modify_burst
  ∧ signal_id <$> q
    = ["7_MODIFY_TRADE_1000"; "7_MODIFY_TRADE_1000"; "7_MODIFY_TRADE_1001"]
  ∧ ¬ NoDup (signal_id <$> q).
Proof.
  intros q.
  assert (E : q = (λ r, stamp r.1.1 r.1.2 r.2) <$> modify_burst)
    by (vm_compute; reflexivity).
  split; [done |]. rewrite E. split; [vm_compute; reflexivity |].
  by_evaluation.
Qed.

(** ** Retention *)

(** Between 0 and 24 hours of age, an entry is kept exactly when it is
    less than 600 seconds old. *)
Lemma retained_within_a_day now s :
  0 ≤ now - server_timestamp s < 86400000000 →
  retained now s ↔ now - server_timestamp s < 600000000.
Proof.
  intros H. unfold retained, timedelta_seconds.
  rewrite Z.mod_small by done.
  split; intros H'.
  - apply Z.nle_gt. intros Hle.
    apply (Z.div_le_mono _ _ 1000000) in Hle; [| lia].
    change (600000000 `div` 1000000) with 600 in Hle. lia.
  - apply Z.div_lt_upper_bound; lia.
Qed.

Lemma sweep_queue_nine_minutes now now_ms data :
  filter (retained (now + 540000000)) [stamp now now_ms data]
  = [stamp now now_ms data].
Proof.
  rewrite filter_cons, decide_True; [done |].
  apply retained_within_a_day; simpl; lia.
Qed.

Lemma sweep_queue_eleven_minutes now now_ms data :
  filter (retained (now + 660000000)) [stamp now now_ms data] = [].
Proof.
  rewrite filter_cons, decide_False; [done |].
  rewrite retained_within_a_day; simpl; lia.
Qed.

(** C8. The sweep compares the seconds field of the age, which starts
    again from 0 every 24 hours: an entry that is 24 hours and 5 minutes
    old is kept. *)
Theorem sweep_keeps_day_old_entry :
  let st := (upload_signal 0 0 (trade "M" "NEW_TRADE" 5 "EURUSD")
               initial).1 in
  let now := 86400000000 + 300000000 in
  queue_of st (VStr "M") = [stamp 0 0 (trade "M" "NEW_TRADE" 5 "EURUSD")]
  ∧ timedelta_total_seconds now 0 = 86700
  ∧ timedelta_seconds now 0 = 300
  ∧ queue_of (cleanup_pass now st) (VStr "M") = queue_of st (VStr "M").
Proof.
  intros st now.
  split; [reflexivity |]. split; [reflexivity |]. split; [reflexivity |].
  rewrite queue_of_cleanup_pass. vm_compute. reflexivity.
Qed.

(** The same slip drops entries stamped after the reading of the clock
    that the sweep takes (a clock set back): an entry that the clock puts
    58 minutes ahead has 82920 in the seconds field of its age. *)
Lemma sweep_drops_entry_ahead_of_clock :
  let st := (upload_signal 3600000000 3600000
               (trade "M" "NEW_TRADE" 5 "EURUSD") initial).1 in
  let now := 3600000000 - 3480000000 in
  timedelta_seconds now 3600000000 = 82920
  ∧ queue_of (cleanup_pass now st) (VStr "M") = [].
Proof.
  intros st now. split; [reflexivity |].
  rewrite queue_of_cleanup_pass. vm_compute. reflexivity.
Qed.

(** ** Instances *)

Lemma at_most_once_witness :
  let X := stamp 1000000 1000 (trade "M" "NEW_TRADE" 1 "EURUSD") in
  let st := (slave_poll insertion_order 2000000 (Some "S") (Some "M")
               (run insertion_order (uploads (burst 1)))).1 in
  X ∈ queue_of st (VStr "M")
  ∧ signal_id X ∈ tracker_of st (VStr "S")
  ∧ X ∉ delivered
          (slave_poll insertion_order 3000000 (Some "S") (Some "M") st).2.
Proof.
  intros X st.
  assert (Hin : signal_id X ∈ tracker_of st (VStr "S")) by by_evaluation.
  split; [by_evaluation |]. split; [exact Hin |].
  exact (at_most_once insertion_order 3000000 "S" (Some "M") st X Hin).
Defined.

Lemma slave_poll_frame_witness :
  let opened :=
    (upload_signal 1000000 1000 (trade "M" "NEW_TRADE" 5 "EURUSD")
       initial).1 in
  let x := stamp 1000000 1000 (trade "M" "NEW_TRADE" 5 "EURUSD") in
  let close := Upload 2000000 2000 (trade "M" "CLOSE_TRADE" 5 "EURUSD") in
  signals_queue
    (slave_poll insertion_order 3000000 (Some "S") (Some "M") opened).1
  = signals_queue opened
  ∧ registration
      (slave_poll insertion_order 3000000 (Some "S") (Some "M") opened).1
      (VStr "M") (VStr "S")
    = Some (SlaveInfo 3000000 3000000)
  ∧ may_remove opened close (VStr "M") x.
Proof.
  intros opened x close.
  destruct (slave_poll_frame insertion_order) as (H1 & H2 & H3).
  split; [apply H1 |]. split.
  - exact (H2 3000000 "S" "M" opened ltac:(done) ltac:(done)).
  - apply H3; by_evaluation.
Defined.

(** * Further properties of the routes *)

(** ** [upload_signal]: the branches that leave the queues alone *)

(** X1. INIT_TEST and HEARTBEAT are acknowledged and nothing is stored,
    provided the request names its master and a ticket (the checks of
    lines 95-99 come first); a symbol is not needed. *)
Theorem upload_signal_acknowledges now now_ms data st :
  get data "action" ∈ not_queued →
  truthy (get data "master_id") →
  get data "master_ticket" ≠ VNone →
  upload_signal now now_ms data st = (st, Acknowledged (get data "action")).
Proof.
  intros Ha Hm Ht. unfold upload_signal.
  assert (Hv : get data "action" ∈ valid_actions).
  { apply list_elem_of_In in Ha. simpl in Ha.
    destruct Ha as [<- | [<- | []]]; by_evaluation. }
  assert (Hs : get data "action" ∈ symbol_optional).
  { apply list_elem_of_In in Ha. simpl in Ha.
    destruct Ha as [<- | [<- | []]]; by_evaluation. }
  pose proof (valid_action_truthy _ Hv) as Hta.
  rewrite decide_False.
  2:{ intros ->. unfold get in Hm. by rewrite lookup_empty in Hm. }
  destruct (truthy (get data "master_id")); [| done].
  destruct (truthy (get data "action")); [| done].
  rewrite bool_decide_eq_false_2 by done. simpl.
  rewrite decide_False by (by intros []).
  rewrite decide_False by (by intros [? _]).
  by rewrite decide_True.
Qed.

Lemma upload_signal_acknowledges_witness :
  upload_signal 1000000 1000
    (body [("master_id", VStr "M"); ("action", VStr "HEARTBEAT");
           ("master_ticket", VInt 0)]) initial
  = (initial, Acknowledged (VStr "HEARTBEAT")).
Proof.
  apply (upload_signal_acknowledges 1000000 1000
           (body [("master_id", VStr "M"); ("action", VStr "HEARTBEAT");
                  ("master_ticket", VInt 0)]) initial).
  - by_evaluation.
  - vm_compute. exact I.
  - by_evaluation.
Defined.

(** X2. An upload writes to one place only, the queue of the master it
    names: the registrations, the processed sets and the queues of all
    other masters come back as they were, whatever the request. *)
Theorem upload_signal_frame now now_ms data st :
  let st' := (upload_signal now now_ms data st).1 in
  slaves st' = slaves st
  ∧ slave_processed_signals st' = slave_processed_signals st
  ∧ ∀ m, m ≠ get data "master_id" →
         signals_queue st' !! m = signals_queue st !! m.
Proof.
  intros st'. subst st'.
  destruct (upload_signal_cases now now_ms data st) as [-> | Hq]; [done |].
  rewrite upload_signal_queueable by done. simpl.
  split; [done |]. split; [done |].
  intros m Hm. by rewrite lookup_insert_ne.
Qed.

Lemma upload_signal_frame_witness :
  let st := run insertion_order (uploads (burst 3)) in
  let st' := (upload_signal 9000000 9000
                (trade "N" "NEW_TRADE" 9 "EURUSD") st).1 in
  signals_queue st' !! VStr "M" = signals_queue st !! VStr "M".
Proof.
  intros st st'.
  destruct (upload_signal_frame 9000000 9000
              (trade "N" "NEW_TRADE" 9 "EURUSD") st) as (_ & _ & H).
  apply H. by_evaluation.
Defined.

(** X3. A NEW_TRADE or NEW_PENDING request that repeats the ticket, action
    and symbol of a queued entry is answered like any accepted request,
    with status received and an id of its own, and the server state is
    exactly what it was: the caller cannot tell that nothing was queued. *)
Theorem duplicate_answered_as_received now now_ms data st q :
  queueable data →
  get data "action" ∈ opening_actions →
  signals_queue st !! get data "master_id" = Some q →
  (length q ≤ 50)%nat →
  Exists (same_triple data) q →
  upload_signal now now_ms data st
  = (st, Received (get data "master_id") (get data "action")
           (get data "master_ticket")
           (make_signal_id (get data "master_ticket") (get data "action")
              now_ms)).
Proof.
  intros Hq Ha Hlook Hlen Hdup.
  rewrite upload_signal_queueable by done.
  unfold queue_of. rewrite Hlook. simpl.
  rewrite insert_signal_opening by done.
  unfold is_duplicate. rewrite bool_decide_eq_true_2 by done.
  rewrite enforce_cap_small by done.
  unfold set_queue. rewrite insert_id by done.
  by destruct st.
Qed.

Lemma duplicate_answered_as_received_witness :
  let data := trade "M" "NEW_TRADE" 5 "EURUSD" in
  let st := (upload_signal 1000000 1000 data initial).1 in
  upload_signal 2000000 2000 data st
  = (st, Received (VStr "M") (VStr "NEW_TRADE") (VInt 5)
           "5_NEW_TRADE_2000").
Proof.
  intros data st.
  apply (duplicate_answered_as_received 2000000 2000 data st
           [stamp 1000000 1000 data]).
  - queueable_by_evaluation.
  - by_evaluation.
  - reflexivity.
  - simpl. lia.
  - by_evaluation.
Defined.

(** ** Invariants of the queues *)

Lemma action_classes a :
  a ∈ valid_actions → a ∉ not_queued →
  a ∈ modify_actions ∨ a ∈ closing_actions ∨ a ∈ opening_actions.
Proof.
  intros Hv Hn. apply list_elem_of_In in Hv. simpl in Hv.
  destruct Hv as [<- | [<- | [<- | [<- | [<- | [<- | [<- | [<- | []]]]]]]]];
    first [ left; by_evaluation
          | right; left; by_evaluation
          | right; right; by_evaluation
          | exfalso; apply Hn; by_evaluation ].
Qed.

Lemma queueable_action_cases data :
  queueable data →
  get data "action" ∈ modify_actions
  ∨ get data "action" ∈ closing_actions
  ∨ get data "action" ∈ opening_actions.
Proof. intros (_ & _ & Hv & Hn & _). by apply action_classes. Qed.

Lemma enforce_cap_sublist q : enforce_cap q `sublist_of` q.
Proof. rewrite enforce_cap_last_n. apply sublist_drop. Qed.

Section QueueInvariants.

Variable set_iter : pyset → list string.

(** Where the queue of [m] after a request comes from. *)
Lemma step_queue_lookup st r m q' :
  signals_queue (step set_iter st r) !! m = Some q' →
  signals_queue st !! m = Some q'
  ∨ (∃ now now_ms data,
       r = Upload now now_ms data ∧ queueable data
       ∧ get data "master_id" = m
       ∧ q' = enforce_cap (insert_signal data (stamp now now_ms data)
                             (queue_of st m)))
  ∨ (∃ now q,
       r = Sweep now ∧ signals_queue st !! m = Some q
       ∧ q' = filter (retained now) q ∧ q' ≠ []).
Proof.
  destruct r as [now ms data | now data | now s k | data | now]; simpl.
  - destruct (upload_signal_cases now ms data st) as [-> | Hq];
      [by left |].
    rewrite upload_signal_queueable by done. simpl.
    destruct (decide (get data "master_id" = m)) as [<- | Hm].
    + rewrite lookup_insert_eq. intros [= <-].
      right. left. by exists now, ms, data.
    + rewrite lookup_insert_ne by done. by left.
  - rewrite register_slave_queue. by left.
  - rewrite slave_poll_queue. by left.
  - destruct (clear_signals_queue data st m) as [-> | [_ ->]];
      [by left | done].
  - unfold cleanup_pass. simpl. rewrite lookup_omap.
    destruct (signals_queue st !! m) as [q |] eqn:Hq; [| done]. simpl.
    unfold sweep_queue.
    destruct (filter (retained now) q) as [| x l] eqn:E; [done |].
    intros [= <-]. right. right. exists now, q. by rewrite E.
Qed.

(** A property of queues that holds of the empty queue, passes to
    sub-sequences and survives the insertion branches holds of every
    queue of every reachable state. *)
Lemma reachable_queue_property (P : value → list signal → Prop) :
  (∀ m, P m []) →
  (∀ m q q', q' `sublist_of` q → P m q → P m q') →
  (∀ m now now_ms data q,
     queueable data → get data "master_id" = m → P m q →
     P m (insert_signal data (stamp now now_ms data) q)) →
  ∀ st, reachable set_iter st → ∀ m, P m (queue_of st m).
Proof.
  intros Hnil Hsub Hins st Hreach.
  induction Hreach as [| st r _ IH]; intros m.
  - unfold queue_of, initial. simpl. by rewrite lookup_empty.
  - unfold queue_of.
    destruct (signals_queue (step set_iter st r) !! m) as [q' |] eqn:E;
      [| apply Hnil].
    simpl.
    apply step_queue_lookup in E
      as [E | [(now & ms & data & _ & Hq & Hm & ->)
              | (now & q & _ & Hq & -> & _)]].
    + specialize (IH m). unfold queue_of in IH. by rewrite E in IH.
    + eapply Hsub; [apply enforce_cap_sublist |]. by apply Hins.
    + specialize (IH m). unfold queue_of in IH. rewrite Hq in IH.
      eapply Hsub; [apply sublist_filter | done].
Qed.

End QueueInvariants.

(** X4. A queue that exists is not empty: the sweep and the clear delete
    the key instead of leaving an empty list, and an accepted upload
    leaves at least one entry. *)
Theorem reachable_queue_nonempty (set_iter : pyset → list string) st :
  reachable set_iter st →
  ∀ m q, signals_queue st !! m = Some q → q ≠ [].
Proof.
  induction 1 as [| st r _ IH]; intros m q'.
  - unfold initial. simpl. by rewrite lookup_empty.
  - intros [E | [(now & ms & data & _ & Hq & Hm & ->)
                | (now & q & _ & _ & _ & Hne)]]%step_queue_lookup.
    + by eapply IH.
    + rewrite enforce_cap_last_n.
      assert (Hins : insert_signal data (stamp now ms data) (queue_of st m)
                     ≠ []).
      { unfold insert_signal. repeat case_decide;
          try (by intros [? ?]%app_eq_nil).
        unfold is_duplicate. case_bool_decide as Hd;
          [| by intros [? ?]%app_eq_nil].
        intros E. rewrite E in Hd. by apply Exists_nil in Hd. }
      intros E. apply Hins.
      apply (f_equal length) in E. rewrite last_n_length in E.
      apply nil_length_inv. simpl in E. lia.
    + done.
Qed.

Lemma reachable_queue_nonempty_witness :
  let st := run insertion_order (uploads (burst 3) ++ [Sweep 900000000]) in
  signals_queue st !! VStr "M" = None
  ∧ ∃ q, signals_queue (run insertion_order (uploads (burst 3)))
           !! VStr "M" = Some q
         ∧ q ≠ [].
Proof.
  intros st. split; [vm_compute; reflexivity |].
  destruct (signals_queue (run insertion_order (uploads (burst 3)))
              !! VStr "M") as [q |] eqn:E; [| by vm_compute in E].
  exists q. split; [done |].
  exact (reachable_queue_nonempty insertion_order
           (run insertion_order (uploads (burst 3)))
           (reachable_run insertion_order _) (VStr "M") q E).
Defined.

Lemma filed_under_stamp now now_ms data :
  queueable data →
  filed_under (get data "master_id") (stamp now now_ms data).
Proof. intros Hq. split; [done |]. split; [done |]. by exists now_ms. Qed.

(** X5. Every entry of the queue of master [m] is a request body that
    passed the checks of lines 85-119 and names [m] as its master, stamped
    by the server; in particular its action is one of the six queued
    ones and its ticket is not [None]. *)
Theorem reachable_entries_filed (set_iter : pyset → list string) st :
  reachable set_iter st →
  ∀ m, Forall (filed_under m) (queue_of st m).
Proof.
  intros Hreach.
  apply (reachable_queue_property set_iter
           (λ m q, Forall (filed_under m) q)); [| | | done].
  - by intros m.
  - intros m q q' Hsub Hall. apply Forall_forall. intros x Hx.
    eapply Forall_forall; [exact Hall |]. by eapply elem_of_sublist.
  - intros m now ms data q Hq <- Hall. apply Forall_forall.
    intros x [Hx | ->]%insert_signal_elem_of.
    + eapply Forall_forall; [exact Hall | done].
    + by apply filed_under_stamp.
Qed.

Lemma reachable_entries_filed_witness :
  Forall (filed_under (VStr "M"))
    (queue_of (run insertion_order (uploads (burst 3))) (VStr "M")).
Proof.
  apply (reachable_entries_filed insertion_order). apply reachable_run.
Defined.

Lemma filter_sublist_mono {A} (P : A → Prop) `{∀ x, Decision (P x)}
  (l k : list A) :
  l `sublist_of` k → filter P l `sublist_of` filter P k.
Proof.
  induction 1 as [| x l k _ IH | x l k _ IH]; [done | |].
  - rewrite !filter_cons. case_decide; [by apply sublist_skip | done].
  - rewrite filter_cons. case_decide; [by apply sublist_cons | done].
Qed.

Lemma opening_entries_snoc q x :
  opening_entries (q ++ [x])
  = opening_entries q
    ++ (if decide (action_of x ∈ opening_actions) then [x] else []).
Proof.
  unfold opening_entries. by rewrite filter_app.
Qed.

Lemma same_triple_iff data x :
  same_triple data x
  ↔ triple_of x
    = (get data "master_ticket", get data "action", get data "symbol").
Proof.
  unfold same_triple, triple_of, ticket_of, action_of. split.
  - by intros (-> & -> & ->).
  - by intros [= -> -> ->].
Qed.

(** X6. A queue never holds two NEW_TRADE or NEW_PENDING entries with the
    same ticket, action and symbol: the duplicate scan of lines 166-177
    keeps the second one out, and no other branch adds an opening
    entry. *)
Theorem reachable_opening_unique (set_iter : pyset → list string) st :
  reachable set_iter st →
  ∀ m, NoDup (triple_of <$> opening_entries (queue_of st m)).
Proof.
  intros Hreach.
  apply (reachable_queue_property set_iter
           (λ _ q, NoDup (triple_of <$> opening_entries q))); [| | | done].
  - intros _. constructor.
  - intros _ q q' Hsub Hnd.
    eapply sublist_NoDup; [exact Hnd |].
    by apply fmap_sublist, filter_sublist_mono.
  - intros m now ms data q Hq _ Hnd.
    destruct (queueable_action_cases data Hq) as [Ha | [Ha | Ha]].
    + rewrite insert_signal_modify, opening_entries_snoc by done.
      rewrite decide_False, app_nil_r; [done |].
      intros Ho. by apply opening_not_modify in Ho.
    + rewrite insert_signal_closing, opening_entries_snoc by done.
      rewrite decide_False, app_nil_r.
      * eapply sublist_NoDup; [exact Hnd |].
        apply fmap_sublist, filter_sublist_mono, sublist_filter.
      * intros Ho. by apply opening_not_closing in Ho.
    + rewrite insert_signal_opening by done. unfold is_duplicate.
      case_bool_decide as Hdup; [done |].
      rewrite opening_entries_snoc, decide_True by done.
      rewrite fmap_app. apply NoDup_app. split; [done |].
      split; [| apply NoDup_singleton].
      intros t Ht [E | []%elem_of_nil]%elem_of_cons. subst t.
      apply list_elem_of_fmap in Ht as (x & Hx & Hin).
      apply Hdup, Exists_exists. exists x. split.
      * unfold opening_entries in Hin.
        by apply list_elem_of_filter in Hin as [_ ?].
      * apply same_triple_iff. rewrite <- Hx. by apply same_triple_iff,
          same_triple_stamp.
Qed.

Lemma reachable_opening_unique_witness :
  NoDup (triple_of <$>
         opening_entries
           (queue_of (run insertion_order
                        (uploads (burst 3) ++ uploads (burst 3)))
              (VStr "M"))).
Proof.
  apply (reachable_opening_unique insertion_order). apply reachable_run.
Defined.

Lemma closes_first_sublist q q' :
  q' `sublist_of` q → closes_first q → closes_first q'.
Proof.
  intros Hsub Hq l1 c l2 -> Hc.
  apply sublist_app_cons_l in Hsub as (k1 & k2 & -> & Hl1 & _).
  specialize (Hq k1 c k2 eq_refl Hc).
  rewrite Forall_forall in Hq. apply Forall_forall. intros x Hx.
  apply Hq. by eapply elem_of_sublist.
Qed.

Lemma closes_first_snoc q x :
  closes_first q →
  (action_of x ∈ closing_actions →
   Forall (λ y, ticket_of y ≠ ticket_of x) q) →
  closes_first (q ++ [x]).
Proof.
  intros Hq Hx l1 c l2 E Hc.
  destruct l2 as [| y l2 _] using rev_ind.
  - apply app_inj_tail in E as [-> ->]. by apply Hx.
  - rewrite app_comm_cons, app_assoc in E.
    apply app_inj_tail in E as [-> _]. by eapply Hq.
Qed.

(** X7. No entry for the ticket of a queued CLOSE_TRADE or DELETE_ORDER
    entry stands before that entry: what was queued for the ticket when
    it was closed is gone, and a slave that reads the queue in order
    meets the close before anything else for that ticket. *)
Theorem reachable_closes_first (set_iter : pyset → list string) st :
  reachable set_iter st →
  ∀ m, closes_first (queue_of st m).
Proof.
  intros Hreach.
  apply (reachable_queue_property set_iter (λ _ q, closes_first q));
    [| | | done].
  - intros _ l1 c l2 E. by destruct l1.
  - intros _ q q'. apply closes_first_sublist.
  - intros m now ms data q Hq _ Hcf.
    destruct (queueable_action_cases data Hq) as [Ha | [Ha | Ha]].
    + rewrite insert_signal_modify by done.
      apply closes_first_snoc; [done |].
      intros Hc. by apply closing_not_modify in Hc.
    + rewrite insert_signal_closing by done.
      apply closes_first_snoc.
      * eapply closes_first_sublist; [apply sublist_filter | done].
      * intros _. apply Forall_forall.
        by intros y [Hy _]%list_elem_of_filter.
    + rewrite insert_signal_opening by done.
      destruct (is_duplicate data q); [done |].
      apply closes_first_snoc; [done |].
      intros Hc. by apply opening_not_closing in Ha.
Qed.

Lemma reachable_closes_first_witness :
  closes_first
    (queue_of (run insertion_order
                 (uploads (burst 3)
                  ++ [Upload 9000000 9000
                        (trade "M" "CLOSE_TRADE" 2 "EURUSD")]))
       (VStr "M")).
Proof.
  apply (reachable_closes_first insertion_order). apply reachable_run.
Defined.

(** ** [register_slave] *)

(** X8. A registration that lacks [slave_id] or [master_id] is answered
    with a 400 error and changes nothing. *)
Theorem register_slave_rejects now data st :
  data !! "slave_id" = None ∨ data !! "master_id" = None →
  ∃ msg, register_slave now data st = (st, Error400 msg).
Proof.
  intros H. unfold register_slave. case_decide; [by eexists |].
  destruct H as [H | H]; apply get_None in H; rewrite H; simpl;
    [| rewrite orb_true_r]; by eexists.
Qed.

Lemma register_slave_rejects_witness :
  ∃ msg,
    register_slave 1000000 (body [("slave_id", VStr "S")]) initial
    = (initial, Error400 msg).
Proof. apply register_slave_rejects. right. reflexivity. Defined.

Lemma register_slave_accepted now data st :
  truthy (get data "slave_id") → truthy (get data "master_id") →
  register_slave now data st
  = (State (signals_queue st)
       (slaves (set_slave st (get data "master_id") (get data "slave_id")
                  (SlaveInfo now now)))
       (match slave_processed_signals st !! get data "slave_id" with
        | Some _ => slave_processed_signals st
        | None => <[get data "slave_id" := []]> (slave_processed_signals st)
        end),
     Registered (get data "slave_id") (get data "master_id")).
Proof.
  intros Hs Hm. unfold register_slave.
  rewrite decide_False.
  2:{ intros ->. unfold get in Hs. by rewrite lookup_empty in Hs. }
  destruct (truthy (get data "slave_id")); [| done].
  by destruct (truthy (get data "master_id")).
Qed.

(** X9. An accepted registration records the pair with both times set to
    the clock reading - also when the pair was registered before, whose
    [registered_at] is overwritten - and leaves the queues, the other
    registrations and what every slave has processed as they were: a slave
    that registers again is not handed its old signals again. *)
Theorem register_slave_keeps_history now data st :
  truthy (get data "slave_id") → truthy (get data "master_id") →
  let s := get data "slave_id" in
  let m := get data "master_id" in
  let st' := (register_slave now data st).1 in
  registration st' m s = Some (SlaveInfo now now)
  ∧ (∀ m' s', (m', s') ≠ (m, s) →
       registration st' m' s' = registration st m' s')
  ∧ signals_queue st' = signals_queue st
  ∧ ∀ k, tracker_of st' k = tracker_of st k.
Proof.
  intros Hs Hm s m st'. subst st'.
  rewrite register_slave_accepted by done. simpl. fold s m.
  split; [| split; [| split; [done |]]].
  - change (registration (set_slave st m s (SlaveInfo now now)) m s
            = Some (SlaveInfo now now)).
    by rewrite registration_set_slave, decide_True.
  - intros m' s' Hne.
    change (registration (set_slave st m s (SlaveInfo now now)) m' s'
            = registration st m' s').
    rewrite registration_set_slave, decide_False; [done |].
    intros [-> ->]. by apply Hne.
  - intros k. unfold tracker_of. simpl.
    destruct (slave_processed_signals st !! s) eqn:E; [done |].
    destruct (decide (s = k)) as [<- | Hne].
    + by rewrite lookup_insert_eq, E.
    + by rewrite lookup_insert_ne.
Qed.

Lemma register_slave_keeps_history_witness :
  let st := (slave_poll insertion_order 4000000 (Some "S") (Some "M")
               (run insertion_order (uploads (burst 3)))).1 in
  let data := body [("slave_id", VStr "S"); ("master_id", VStr "M")] in
  registration st (VStr "M") (VStr "S") = Some (SlaveInfo 4000000 4000000)
  ∧ registration (register_slave 5000000 data st).1 (VStr "M") (VStr "S")
    = Some (SlaveInfo 5000000 5000000)
  ∧ tracker_of (register_slave 5000000 data st).1 (VStr "S")
    = ["1_NEW_TRADE_1000"].
Proof.
  intros st data.
  destruct (register_slave_keeps_history 5000000 data st)
    as (H1 & _ & _ & H4); [vm_compute; exact I | vm_compute; exact I |].
  split; [vm_compute; reflexivity |]. split; [exact H1 |].
  rewrite H4. vm_compute. reflexivity.
Defined.

(** ** [slave_poll] *)

(** X10. A poll whose [slave_id] or [master_id] is absent or the empty
    string is answered with a 400 error and changes nothing: it does not
    register the slave. *)
Theorem slave_poll_rejects (set_iter : pyset → list string)
  now slave_id master_id st :
  slave_id = None ∨ slave_id = Some "" ∨ master_id = None
  ∨ master_id = Some "" →
  slave_poll set_iter now slave_id master_id st
  = (st, Error400 "Missing slave_id or master_id").
Proof.
  intros H. unfold slave_poll.
  destruct slave_id as [s |], master_id as [m |]; try done.
  rewrite decide_True; [done |].
  destruct H as [H | [[= ->] | [H | [= ->]]]]; try done;
    [by left | by right].
Qed.

Lemma slave_poll_rejects_witness :
  slave_poll insertion_order 1000000 (Some "") (Some "M")
    (run insertion_order (uploads (burst 3)))
  = (run insertion_order (uploads (burst 3)),
     Error400 "Missing slave_id or master_id").
Proof. apply slave_poll_rejects. right. left. reflexivity. Defined.

Lemma find_unprocessed_None processed q :
  find_unprocessed processed q = None →
  Forall (λ x, signal_id x = "" ∨ signal_id x ∈ processed) q.
Proof.
  induction q as [| y q IH]; simpl; [by constructor |].
  case_decide as Hy; [done |]. intros H. constructor; [| by apply IH].
  destruct (decide (signal_id y = "")); [by left |].
  right. apply dec_stable. intros Hn. by apply Hy.
Qed.

Lemma find_unprocessed_split processed q X :
  find_unprocessed processed q = Some X →
  ∃ l1 l2,
    q = l1 ++ X :: l2
    ∧ Forall (λ x, signal_id x = "" ∨ signal_id x ∈ processed) l1.
Proof.
  induction q as [| y q IH]; simpl; [done |].
  case_decide as Hy.
  - intros [= <-]. by exists [], q.
  - intros (l1 & l2 & -> & Hl1)%IH. exists (y :: l1), l2.
    split; [done |]. constructor; [| done].
    destruct (decide (signal_id y = "")); [by left |].
    right. apply dec_stable. intros Hn. by apply Hy.
Qed.

(** X11. An accepted poll of a master that has a queue hands out at most
    one signal, and it is the oldest unprocessed one: every entry that
    stands before it in the queue has its id in the processed set of the
    slave (or no id), and its own id is not in the set.  It hands out
    nothing only when every entry is processed. *)
Theorem slave_poll_oldest_unprocessed (set_iter : pyset → list string)
  now s m st q :
  s ≠ "" → m ≠ "" →
  signals_queue st !! VStr m = Some q →
  let T := tracker_of st (VStr s) in
  let d := delivered (slave_poll set_iter now (Some s) (Some m) st).2 in
  (d = [] ∧ Forall (λ x, signal_id x = "" ∨ signal_id x ∈ T) q)
  ∨ (∃ l1 X l2,
       d = [X] ∧ q = l1 ++ X :: l2
       ∧ Forall (λ x, signal_id x = "" ∨ signal_id x ∈ T) l1
       ∧ signal_id X ≠ "" ∧ signal_id X ∉ T).
Proof.
  intros Hs Hm Hq T d. subst d.
  destruct (slave_poll_deliver set_iter now s m st q Hs Hm Hq)
    as (-> & _ & _).
  unfold deliver. simpl. fold T.
  destruct (find_unprocessed T q) as [X |] eqn:E; simpl.
  - right. pose proof E as (l1 & l2 & -> & Hl1)%find_unprocessed_split.
    apply find_unprocessed_Some in E as (_ & Hne & Hnew).
    by exists l1, X, l2.
  - left. split; [done |]. by apply find_unprocessed_None.
Qed.

Lemma slave_poll_oldest_unprocessed_witness :
  let st := (slave_poll insertion_order 4000000 (Some "S") (Some "M")
               (run insertion_order (uploads (burst 3)))).1 in
  let T := tracker_of st (VStr "S") in
  let d := delivered
             (slave_poll insertion_order 5000000 (Some "S") (Some "M") st).2
  in
  (d = []
   ∧ Forall (λ x, signal_id x = "" ∨ signal_id x ∈ T)
       (queue_of st (VStr "M")))
  ∨ (∃ l1 X l2,
       d = [X] ∧ queue_of st (VStr "M") = l1 ++ X :: l2
       ∧ Forall (λ x, signal_id x = "" ∨ signal_id x ∈ T) l1
       ∧ signal_id X ≠ "" ∧ signal_id X ∉ T).
Proof.
  intros st.
  apply (slave_poll_oldest_unprocessed insertion_order 5000000 "S" "M" st
           (queue_of st (VStr "M")));
    [done | done | vm_compute; reflexivity].
Defined.

(** ** Delivery in order, for queues of any length *)

Lemma find_unprocessed_app_skip processed done rest :
  Forall (λ x, signal_id x ∈ processed) done →
  find_unprocessed processed (done ++ rest)
  = find_unprocessed processed rest.
Proof.
  induction 1 as [| y done Hy _ IH]; [done |].
  simpl. rewrite decide_False; [done |]. by intros [_ ?].
Qed.

Lemma polls_app set_iter nows1 nows2 s m st :
  polls set_iter (nows1 ++ nows2) s m st
  = polls set_iter nows1 s m st
    ++ polls set_iter nows2 s m (after_polls set_iter nows1 s m st).
Proof.
  revert st. induction nows1 as [| now nows1 IH]; intros st; [done |].
  simpl. by rewrite IH.
Qed.

Section FifoAnyLength.

Variable set_iter : pyset → list string.

(** The entries [rest] that a slave has not processed, behind entries
    [done] that it has: one poll per entry hands them out in order and
    processes them all. *)
Lemma polls_deliver_rest s m rest :
  s ≠ "" → m ≠ "" →
  ∀ done st nows,
    signals_queue st !! VStr m = Some (done ++ rest) →
    Forall (λ x, signal_id x ∈ tracker_of st (VStr s)) done →
    Forall (λ x, signal_id x ≠ "" ∧ signal_id x ∉ tracker_of st (VStr s))
      rest →
    NoDup (signal_id <$> rest) →
    (length (tracker_of st (VStr s)) + length rest ≤ 200)%nat →
    length nows = length rest →
    polls set_iter nows s m st = (λ x, [x]) <$> rest
    ∧ signals_queue (after_polls set_iter nows s m st) !! VStr m
      = Some (done ++ rest)
    ∧ Forall (λ x, signal_id x
                   ∈ tracker_of (after_polls set_iter nows s m st) (VStr s))
        (done ++ rest).
Proof.
  intros Hs Hm.
  induction rest as [| X rest IH]; intros done st nows Hq Hdone Hrest Hnd
    Hlen Hnows.
  - destruct nows; [| done]. simpl. rewrite app_nil_r in *. done.
  - destruct nows as [| now nows]; [done |].
    apply Forall_cons in Hrest as [[HX HnX] Hrest].
    simpl in Hnd. apply NoDup_cons in Hnd as [HXrest Hnd].
    destruct (slave_poll_found set_iter now s m st (done ++ X :: rest) X
                Hs Hm Hq) as (D & T & Q).
    { rewrite find_unprocessed_app_skip by done.
      by apply find_unprocessed_head. }
    { simpl in Hlen. lia. }
    cbn [polls after_polls fmap list_fmap].
    set (p := slave_poll set_iter now (Some s) (Some m) st) in *.
    rewrite D.
    destruct (IH (done ++ [X]) p.1 nows) as (IH1 & IH2 & IH3).
    + by rewrite <- app_assoc.
    + rewrite T. apply Forall_app. split.
      * eapply Forall_impl; [exact Hdone |]. intros x Hx.
        apply elem_of_app. by left.
      * apply Forall_singleton. apply elem_of_app. right. left.
    + rewrite T. rewrite Forall_forall in Hrest.
      apply Forall_forall. intros x Hx.
      destruct (Hrest x Hx) as [Hne Hnew]. split; [done |].
      rewrite not_elem_of_app, list_elem_of_singleton. split; [done |].
      intros E. apply HXrest. rewrite <- E.
      apply list_elem_of_fmap. by exists x.
    + done.
    + rewrite T, length_app. simpl in *. lia.
    + simpl in Hnows. lia.
    + rewrite <- app_assoc in IH2, IH3. simpl in IH2, IH3.
      split; [by f_equal |]. done.
Qed.

End FifoAnyLength.

(** X12. First in, first out, for a queue of any length: in a reachable
    state, when the ids of the queued entries differ from each other, the
    slave has processed none of them and its processed set has room for
    them all under the cap of 200, one poll per entry hands the entries
    out in the order of the queue, and the poll after that hands out
    nothing. *)
Theorem fifo_any_length (set_iter : pyset → list string)
  st s m q nows now :
  reachable set_iter st → s ≠ "" → m ≠ "" →
  signals_queue st !! VStr m = Some q →
  NoDup (signal_id <$> q) →
  Forall (λ x, signal_id x ∉ tracker_of st (VStr s)) q →
  (length (tracker_of st (VStr s)) + length q ≤ 200)%nat →
  length nows = length q →
  polls set_iter (nows ++ [now]) s m st = ((λ x, [x]) <$> q) ++ [[]].
Proof.
  intros Hreach Hs Hm Hq Hnd Hnew Hlen Hnows.
  destruct (polls_deliver_rest set_iter s m q Hs Hm [] st nows)
    as (H1 & H2 & H3); try done.
  { apply Forall_forall. intros x Hx. split.
    - apply (reachable_signal_id_nonempty set_iter st Hreach (VStr m)).
      unfold queue_of. by rewrite Hq.
    - rewrite Forall_forall in Hnew. by apply Hnew. }
  rewrite polls_app, H1. f_equal. simpl. f_equal.
  apply (slave_poll_nothing set_iter now s m _ q Hs Hm H2).
  rewrite <- (app_nil_r q) at 1.
  by rewrite find_unprocessed_app_skip.
Qed.

Lemma fifo_any_length_witness :
  let st := run insertion_order (uploads (burst 5)) in
  polls insertion_order [11; 12; 13; 14; 15; 16] "S" "M" st
  = ((λ x, [x]) <$> queue_of st (VStr "M")) ++ [[]].
Proof.
  intros st.
  apply (fifo_any_length insertion_order st "S" "M"
           (queue_of st (VStr "M")) [11; 12; 13; 14; 15] 16).
  - apply reachable_run.
  - done.
  - done.
  - vm_compute. reflexivity.
  - by_evaluation.
  - by_evaluation.
  - vm_compute. lia.
  - reflexivity.
Defined.

(** ** [clear_signals] *)

Lemma clear_signals_queues data st :
  signals_queue (clear_signals data st).1
  = if truthy (get data "master_id")
    then delete (get data "master_id") (signals_queue st)
    else signals_queue st.
Proof.
  unfold clear_signals.
  destruct (if truthy (get data "slave_id") then _ else _);
    destruct (truthy (get data "master_id")); try done;
    destruct (signals_queue st !! get data "master_id") eqn:E; simpl;
    try done; by rewrite delete_id.
Qed.

Lemma clear_signals_trackers data st s :
  tracker_of (clear_signals data st).1 s
  = if decide (truthy (get data "slave_id") ∧ s = get data "slave_id")
    then [] else tracker_of st s.
Proof.
  unfold clear_signals, tracker_of.
  destruct (if truthy (get data "master_id") then _ else _).
  - destruct (truthy (get data "slave_id")); simpl.
    + destruct (slave_processed_signals st !! get data "slave_id") eqn:E;
        simpl; case_decide as Hk.
      * destruct Hk as [_ ->]. by rewrite lookup_insert_eq.
      * rewrite lookup_insert_ne; [done |]. intros <-. by apply Hk.
      * destruct Hk as [_ ->]. by rewrite E.
      * done.
    + first [done | case_decide as Hk; [by destruct Hk | done]].
  - destruct (truthy (get data "slave_id")); simpl.
    + destruct (slave_processed_signals st !! get data "slave_id") eqn:E;
        simpl; case_decide as Hk.
      * destruct Hk as [_ ->]. by rewrite lookup_insert_eq.
      * rewrite lookup_insert_ne; [done |]. intros <-. by apply Hk.
      * destruct Hk as [_ ->]. by rewrite E.
      * done.
    + first [done | case_decide as Hk; [by destruct Hk | done]].
Qed.

Lemma clear_signals_slaves data st :
  slaves (clear_signals data st).1 = slaves st.
Proof.
  unfold clear_signals.
  destruct (if truthy (get data "slave_id") then _ else _);
    by destruct (if truthy (get data "master_id") then _ else _).
Qed.

(** X13. What a clear does, as the readers see it: it never touches the
    registrations; it empties the queue of the master it names and the
    processed set of the slave it names, when the name is given and not
    empty, and nothing else. *)
Theorem clear_signals_effect data st :
  let st' := (clear_signals data st).1 in
  slaves st' = slaves st
  ∧ (∀ m, queue_of st' m
          = if decide (truthy (get data "master_id")
                       ∧ m = get data "master_id")
            then [] else queue_of st m)
  ∧ (∀ s, tracker_of st' s
          = if decide (truthy (get data "slave_id")
                       ∧ s = get data "slave_id")
            then [] else tracker_of st s).
Proof.
  intros st'. subst st'.
  split; [apply clear_signals_slaves |]. split.
  - intros m. unfold queue_of. rewrite clear_signals_queues.
    destruct (truthy (get data "master_id")); simpl.
    + case_decide as Hk.
      * destruct Hk as [_ ->]. by rewrite lookup_delete_eq.
      * rewrite lookup_delete_ne; [done |]. intros <-. by apply Hk.
    + first [done | case_decide as Hk; [by destruct Hk | done]].
  - apply clear_signals_trackers.
Qed.

Lemma clear_signals_effect_witness :
  let st := (slave_poll insertion_order 4000000 (Some "S") (Some "M")
               (run insertion_order (uploads (burst 3)))).1 in
  let st' := (clear_signals (body [("slave_id", VStr "S")]) st).1 in
  tracker_of st (VStr "S") = ["1_NEW_TRADE_1000"]
  ∧ tracker_of st' (VStr "S") = []
  ∧ queue_of st' (VStr "M") = queue_of st (VStr "M").
Proof.
  intros st st'.
  destruct (clear_signals_effect (body [("slave_id", VStr "S")]) st)
    as (_ & Hq & Ht).
  split; [vm_compute; reflexivity |]. split.
  - exact (Ht (VStr "S")).
  - exact (Hq (VStr "M")).
Defined.



(** X15. After the processed set of a slave is cleared, the slave is
    handed again everything that the master still has queued, in the
    order of the queue, one entry per poll - provided the queued ids
    differ from each other. *)
Theorem clear_then_polls_redeliver (set_iter : pyset → list string)
  st data s m nows :
  reachable set_iter st → s ≠ "" → m ≠ "" →
  get data "slave_id" = VStr s →
  get data "master_id" ≠ VStr m →
  NoDup (signal_id <$> queue_of st (VStr m)) →
  length nows = length (queue_of st (VStr m)) →
  polls set_iter nows s m (clear_signals data st).1
  = (λ x, [x]) <$> queue_of st (VStr m).
Proof.
  intros Hreach Hs Hm Hslave Hmaster Hnd Hnows.
  set (st' := (clear_signals data st).1).
  assert (Hq : signals_queue st' !! VStr m = signals_queue st !! VStr m).
  { unfold st'. rewrite clear_signals_queues.
    destruct (truthy (get data "master_id")); [| done].
    by rewrite lookup_delete_ne. }
  assert (Ht : tracker_of st' (VStr s) = []).
  { unfold st'. rewrite clear_signals_trackers, decide_True; [done |].
    rewrite Hslave. split; [| done]. simpl. by apply bool_decide_pack. }
  unfold queue_of in *.
  destruct (signals_queue st !! VStr m) as [q |] eqn:E; simpl in *.
  - destruct (polls_deliver_rest set_iter s m q Hs Hm [] st' nows)
      as (H1 & _ & _); try done.
    + rewrite Ht. apply Forall_forall. intros x Hx.
      split; [| by apply not_elem_of_nil].
      apply (reachable_signal_id_nonempty set_iter st Hreach (VStr m)).
      unfold queue_of. by rewrite E.
    + rewrite Ht. simpl.
      pose proof (reachable_queue_length set_iter st Hreach _ _ E). lia.
  - by destruct nows.
Qed.

Lemma clear_then_polls_redeliver_witness :
  let st := after_polls insertion_order [11; 12; 13] "S" "M"
              (run insertion_order (uploads (burst 3))) in
  polls insertion_order [21] "S" "M" st = [[]]
  ∧ polls insertion_order [31; 32; 33] "S" "M"
      (clear_signals (body [("slave_id", VStr "S")]) st).1
    = (λ x, [x]) <$> queue_of st (VStr "M").
Proof.
  intros st. split; [vm_compute; reflexivity |].
  apply (clear_then_polls_redeliver insertion_order st
           (body [("slave_id", VStr "S")]) "S" "M" [31; 32; 33]).
  - unfold st.
    assert (H : ∀ nows s m st0,
              reachable insertion_order st0 →
              reachable insertion_order
                (after_polls insertion_order nows s m st0)).
    { induction nows as [| n nows IH]; intros s m st0 H0; [done |].
      simpl. apply IH.
      exact (reachable_step insertion_order st0
               (Poll n (Some s) (Some m)) H0). }
    apply H, reachable_run.
  - done.
  - done.
  - reflexivity.
  - by_evaluation.
  - by_evaluation.
  - reflexivity.
Defined.

(** ** The sweep *)

(** X16. Sweeping twice with one clock reading is sweeping once: the
    entries that a sweep keeps are kept by the same sweep again, and the
    queues it deletes stay deleted. *)
Theorem cleanup_pass_idempotent now st :
  cleanup_pass now (cleanup_pass now st) = cleanup_pass now st.
Proof.
  unfold cleanup_pass. simpl. f_equal.
  apply map_eq. intros m. rewrite !lookup_omap.
  destruct (signals_queue st !! m) as [q |]; simpl; [| done].
  unfold sweep_queue.
  destruct (filter (retained now) q) as [| x l] eqn:E; simpl; [done |].
  rewrite <- E, list_filter_filter.
  rewrite (list_filter_iff _ (retained now)) by tauto.
  by rewrite E.
Qed.

(** X17. For an entry that is between 0 and 24 hours old by the clock of
    the sweep, the sweep keeps it exactly when it is less than 600
    seconds old: present 9 minutes after ingestion, gone after a sweep 11
    minutes after it. *)
Theorem retention_within_a_day now s :
  0 ≤ now - server_timestamp s < 86400000000 →
  (retained now s ↔ now - server_timestamp s < 600000000)
  ∧ filter (retained (server_timestamp s + 540000000)) [s] = [s]
  ∧ filter (retained (server_timestamp s + 660000000)) [s] = [].
Proof.
  intros H. split; [by apply retained_within_a_day |]. split.
  - rewrite filter_cons, decide_True; [done |].
    apply retained_within_a_day; lia.
  - rewrite filter_cons, decide_False; [done |].
    rewrite retained_within_a_day; lia.
Qed.

Lemma retention_within_a_day_witness :
  let s := stamp 1000000 1000 (trade "M" "NEW_TRADE" 1 "EURUSD") in
  (retained 541000000 s ↔ 541000000 - server_timestamp s < 600000000)
  ∧ filter (retained (server_timestamp s + 540000000)) [s] = [s]
  ∧ filter (retained (server_timestamp s + 660000000)) [s] = [].
Proof.
  intros s. apply (retention_within_a_day 541000000 s). simpl. lia.
Defined.

(** ** At most once, along a run *)

Lemma set_add_keeps x y s : x ∈ s → x ∈ set_add y s.
Proof.
  intros H. unfold set_add. case_decide; [done |].
  apply elem_of_app. by left.
Qed.

Section AlongARun.

Variable set_iter : pyset → list string.

Lemma slave_poll_tracker_cases now slave_id master_id st s :
  tracker_of (slave_poll set_iter now slave_id master_id st).1 s
  = tracker_of st s
  ∨ (polled_by s (Poll now slave_id master_id)
     ∧ ∃ q, tracker_of (slave_poll set_iter now slave_id master_id st).1 s
            = (deliver set_iter q (tracker_of st s)).1).
Proof.
  destruct slave_id as [sl |]; [| by left].
  destruct (decide (VStr sl = s)) as [<- | Hne].
  - destruct master_id as [m |]; [| by left].
    destruct (decide (sl = "" ∨ m = "")) as [Hd | Hd].
    + left. unfold slave_poll. by rewrite decide_True.
    + destruct (signals_queue st !! VStr m) as [q |] eqn:Hq.
      * right. split; [done |]. exists q.
        apply (slave_poll_deliver set_iter now sl m st q); [| | done];
          intros ->; apply Hd; [by left | by right].
      * left. unfold slave_poll. rewrite decide_False by done.
        simpl. by rewrite Hq.
  - left. unfold tracker_of. rewrite slave_poll_processed; [done |].
    simpl. intros [= E]. by apply Hne.
Qed.

(** One request: unless it clears the processed set of [s], and as long
    as the set stays under the cap, it keeps every id of the set and adds
    at most one, and only if it is a poll by [s]. *)
Lemma step_tracker_keeps st r s :
  ¬ clears_slave s r →
  let polled := if decide (polled_by s r) then 1%nat else 0%nat in
  (length (tracker_of st s) + polled ≤ 200)%nat →
  (∀ id, id ∈ tracker_of st s → id ∈ tracker_of (step set_iter st r) s)
  ∧ (length (tracker_of (step set_iter st r) s)
     ≤ length (tracker_of st s) + polled)%nat.
Proof.
  intros Hclear polled Hlen.
  destruct r as [now ms data | now data | now sl k | data | now]; simpl.
  - assert (E : tracker_of (upload_signal now ms data st).1 s
                = tracker_of st s).
    { destruct (upload_signal_cases now ms data st) as [-> | Hq]; [done |].
      by rewrite upload_signal_queueable. }
    rewrite E. split; [done | lia].
  - assert (E : tracker_of (register_slave now data st).1 s
                = tracker_of st s).
    { unfold register_slave. case_decide; [done |].
      destruct (_ || _); [done |]. unfold tracker_of. simpl.
      destruct (slave_processed_signals st !! get data "slave_id") eqn:E;
        [done |].
      destruct (decide (get data "slave_id" = s)) as [<- | Hne].
      - by rewrite lookup_insert_eq, E.
      - by rewrite lookup_insert_ne. }
    rewrite E. split; [done | lia].
  - destruct (slave_poll_tracker_cases now sl k st s) as [-> | [Hp [q ->]]];
      [split; [done | lia] |].
    subst polled. rewrite decide_True in Hlen |- * by done.
    unfold deliver. simpl.
    destruct (find_unprocessed (tracker_of st s) q) as [X |].
    + pose proof (set_add_length (signal_id X) (tracker_of st s)).
      rewrite trim_processed_small by lia.
      split; [| lia]. intros id. apply set_add_keeps.
    + rewrite trim_processed_small by lia. split; [done | lia].
  - rewrite clear_signals_trackers, decide_False; [split; [done | lia] |].
    intros [_ ->]. by apply Hclear.
  - change (tracker_of (cleanup_pass now st) s) with (tracker_of st s).
    split; [done | lia].
Qed.

Lemma run_tracker_keeps s id rs :
  ∀ st,
    Forall (λ r, ¬ clears_slave s r) rs →
    (length (tracker_of st s) + length (filter (polled_by s) rs) ≤ 200)%nat →
    id ∈ tracker_of st s →
    id ∈ tracker_of (foldl (step set_iter) st rs) s.
Proof.
  induction rs as [| r rs IH]; intros st Hclear Hlen Hin; [done |].
  apply Forall_cons in Hclear as [Hr Hclear].
  rewrite filter_cons in Hlen. simpl.
  destruct (step_tracker_keeps st r s Hr) as [Hkeep Hgrow].
  { case_decide; simpl in Hlen; lia. }
  apply IH; [done | | by apply Hkeep].
  case_decide; simpl in Hlen; lia.
Qed.

End AlongARun.

(** X18. At most once, along a run: once a poll has handed signal [X] to
    slave [s], no later poll by [s], of any master, hands out [X] or any
    signal with the id of [X], whatever uploads, registrations, polls,
    sweeps and clears happen in between - as long as none of them clears
    the processed set of [s] and that set stays within the cap of 200
    (the ids it held, plus one per poll by [s]). *)
Theorem delivered_once_along_run (set_iter : pyset → list string)
  st now s m X rs now' master_id' Y :
  X ∈ delivered (slave_poll set_iter now (Some s) (Some m) st).2 →
  Forall (λ r, ¬ clears_slave (VStr s) r) rs →
  (length (tracker_of st (VStr s)) + 1
   + length (filter (polled_by (VStr s)) rs) ≤ 200)%nat →
  signal_id Y = signal_id X →
  Y ∉ delivered
        (slave_poll set_iter now' (Some s) master_id'
           (foldl (step set_iter)
              (slave_poll set_iter now (Some s) (Some m) st).1 rs)).2.
Proof.
  intros HX Hclear Hlen Hid.
  set (st1 := (slave_poll set_iter now (Some s) (Some m) st).1) in *.
  assert (Htracked : signal_id X ∈ tracker_of st1 (VStr s)).
  { apply delivered_is_tracked; [lia | done]. }
  assert (Hlen1 : (length (tracker_of st1 (VStr s))
                   ≤ length (tracker_of st (VStr s)) + 1)%nat).
  { destruct (step_tracker_keeps set_iter st (Poll now (Some s) (Some m))
                (VStr s)) as [_ H]; [by intros ? | |].
    - rewrite decide_True by done. lia.
    - rewrite decide_True in H by done. exact H. }
  pose proof (run_tracker_keeps set_iter (VStr s) (signal_id X) rs st1
                Hclear ltac:(lia) Htracked) as Hend.
  intros (s' & m' & q & [= <-] & _ & _ & Hfind)%slave_poll_delivered_cases.
  apply find_unprocessed_Some in Hfind as (_ & _ & Hnew).
  apply Hnew. by rewrite Hid.
Qed.

Lemma delivered_once_along_run_witness :
  let st := run insertion_order (uploads (burst 2)) in
  let X := stamp 1000000 1000 (trade "M" "NEW_TRADE" 1 "EURUSD") in
  let rs := [Upload 5000000 5000 (trade "M" "MODIFY_TRADE" 1 "EURUSD");
             Poll 6000000 (Some "S") (Some "M");
             Sweep 7000000;
             Clear (body [("slave_id", VStr "R")])] in
  X ∈ queue_of
        (foldl (step insertion_order)
           (slave_poll insertion_order 4000000 (Some "S") (Some "M") st).1
           rs) (VStr "M")
  ∧ X ∉ delivered
          (slave_poll insertion_order 8000000 (Some "S") (Some "M")
             (foldl (step insertion_order)
                (slave_poll insertion_order 4000000 (Some "S") (Some "M")
                   st).1 rs)).2.
Proof.
  intros st X rs. split; [by_evaluation |].
  apply (delivered_once_along_run insertion_order st 4000000 "S" "M" X rs
           8000000 (Some "M") X).
  - by_evaluation.
  - by_evaluation.
  - vm_compute. lia.
  - reflexivity.
Defined.

(** ** The reports: [home] and [status] *)

Lemma sum_list_bounds (l : list nat) (lo hi : nat) :
  Forall (λ n, lo ≤ n ≤ hi)%nat l →
  (lo * length l ≤ sum_list l ≤ hi * length l)%nat.
Proof.
  induction 1 as [| n l Hn _ IH]; simpl; lia.
Qed.

(** X19. The counters of the home page: in a reachable state the number
    of pending signals lies between the number of active masters (no
    queue is empty) and 50 times that number (no queue is over the
    cap). *)
Theorem home_totals_bounded (set_iter : pyset → list string) st :
  reachable set_iter st →
  (active_masters (home st) ≤ total_signals (home st)
   ≤ 50 * active_masters (home st))%nat.
Proof.
  intros Hreach. unfold home, sum_of_lengths. simpl.
  rewrite <- (length_map_to_list (signals_queue st)).
  pose proof (sum_list_bounds
                ((λ kv, length kv.2) <$> map_to_list (signals_queue st))
                1 50) as H.
  rewrite length_fmap in H. rewrite Nat.mul_1_l in H. apply H.
  apply Forall_fmap, Forall_forall. intros [m q] Hin. simpl.
  apply elem_of_map_to_list in Hin.
  pose proof (reachable_queue_length set_iter st Hreach m q Hin).
  pose proof (reachable_queue_nonempty set_iter st Hreach m q Hin).
  destruct q; [done |]. simpl in *. lia.
Qed.

Lemma home_totals_bounded_witness :
  let st := run insertion_order
              (uploads (burst 3)
               ++ [Upload 9000000 9000 (trade "N" "NEW_TRADE" 1 "EURUSD")])
  in
  home st = HomeStats 2 4 0
  ∧ (active_masters (home st) ≤ total_signals (home st)
     ≤ 50 * active_masters (home st))%nat.
Proof.
  intros st. split; [vm_compute; reflexivity |].
  apply (home_totals_bounded insertion_order). apply reachable_run.
Defined.

Lemma count_action_lookup h x a :
  count_action h x !! a
  = if decide (truthy a ∧ action_of x = a)
    then Some (default 0 (h !! a) + 1)%nat
    else h !! a.
Proof.
  unfold count_action, action_of.
  destruct (truthy (get (fields x) "action")) eqn:E.
  - destruct (decide (get (fields x) "action" = a)) as [<- | Hne].
    + rewrite lookup_insert_eq, decide_True; [done |]. by rewrite E.
    + rewrite lookup_insert_ne by done.
      rewrite decide_False; [done |]. by intros [_ ?].
  - rewrite decide_False; [done |]. intros [Ha <-]. by rewrite E in Ha.
Qed.

Lemma histogram_lookup l a :
  ∀ h,
    foldl count_action h l !! a
    = let n := length (filter (λ x, truthy a ∧ action_of x = a) l) in
      match n with
      | O => h !! a
      | S _ => Some (default 0 (h !! a) + n)%nat
      end.
Proof.
  induction l as [| x l IH]; intros h; [done |].
  simpl. rewrite IH, filter_cons, count_action_lookup.
  case_decide as Hx; simpl.
  - destruct (length (filter _ l)); f_equal; lia.
  - done.
Qed.

(** X20. The histogram of the status report: under each action that
    occurs in the queue of the master it holds the number of queued
    entries with that action, and it has no key for an action that does
    not occur. *)
Theorem status_histogram (set_iter : pyset → list string) st m r a :
  masters (status set_iter st) !! m = Some r →
  truthy a →
  let n := length (filter (λ x, action_of x = a) (queue_of st m)) in
  pending_signals r = length (queue_of st m)
  ∧ signals_by_action r !! a = if decide (n = 0%nat) then None else Some n.
Proof.
  intros Hr Ha n. subst n. unfold status in Hr. simpl in Hr.
  rewrite map_lookup_imap in Hr. unfold queue_of.
  destruct (signals_queue st !! m) as [q |]; [| done].
  simpl in Hr. injection Hr as <-. simpl. split; [done |].
  rewrite histogram_lookup. simpl. rewrite lookup_empty. simpl.
  rewrite (list_filter_iff _ (λ x, action_of x = a)) by tauto.
  by destruct (length (filter _ q)).
Qed.

Lemma status_histogram_witness :
  let st := run insertion_order
              (uploads (burst 3)
               ++ [Upload 9000000 9000
                     (trade "M" "MODIFY_TRADE" 1 "EURUSD")]) in
  ∃ r, masters (status insertion_order st) !! VStr "M" = Some r
       ∧ pending_signals r = 4%nat
       ∧ signals_by_action r !! VStr "NEW_TRADE" = Some 3%nat
       ∧ signals_by_action r !! VStr "CLOSE_TRADE" = None.
Proof.
  intros st.
  destruct (masters (status insertion_order st) !! VStr "M") as [r |] eqn:E;
    [| by vm_compute in E].
  exists r. split; [done |].
  destruct (status_histogram insertion_order st (VStr "M") r
              (VStr "NEW_TRADE") E I) as [H1 H2].
  destruct (status_histogram insertion_order st (VStr "M") r
              (VStr "CLOSE_TRADE") E I) as [_ H3].
  split; [exact H1 |]. split; [exact H2 | exact H3].
Defined.

Lemma status_masters_lookup set_iter st m :
  masters (status set_iter st) !! m
  = master_report_of st m <$> signals_queue st !! m.
Proof.
  unfold status. simpl. rewrite map_lookup_imap.
  by destruct (signals_queue st !! m).
Qed.

(** X21. The oldest signal of the status report is what a slave that has
    processed nothing is handed by its next poll of that master. *)
Theorem status_oldest_is_next (set_iter : pyset → list string)
  st now s m r :
  reachable set_iter st → s ≠ "" → m ≠ "" →
  masters (status set_iter st) !! VStr m = Some r →
  tracker_of st (VStr s) = [] →
  delivered (slave_poll set_iter now (Some s) (Some m) st).2
  = option_list (oldest_signal r).
Proof.
  intros Hreach Hs Hm Hr Ht.
  rewrite status_masters_lookup in Hr.
  destruct (signals_queue st !! VStr m) as [q |] eqn:Hq; [| done].
  injection Hr as <-.
  destruct (slave_poll_deliver set_iter now s m st q Hs Hm Hq)
    as (-> & _ & _).
  unfold deliver. simpl. rewrite Ht.
  destruct q as [| x q]; [done |].
  rewrite find_unprocessed_head; [done | | apply not_elem_of_nil].
  apply (reachable_signal_id_nonempty set_iter st Hreach (VStr m)).
  unfold queue_of. rewrite Hq. left.
Qed.

Lemma status_oldest_is_next_witness :
  let st := run insertion_order (uploads (burst 3)) in
  ∃ r, masters (status insertion_order st) !! VStr "M" = Some r
       ∧ delivered
           (slave_poll insertion_order 4000000 (Some "S") (Some "M") st).2
         = option_list (oldest_signal r).
Proof.
  intros st.
  destruct (masters (status insertion_order st) !! VStr "M") as [r |] eqn:E;
    [| by vm_compute in E].
  exists r. split; [done |].
  apply (status_oldest_is_next insertion_order st 4000000 "S" "M" r);
    [apply reachable_run | done | done | exact E | reflexivity].
Defined.

Lemma last_n_snoc_last {A} (n : nat) (l : list A) (x : A) :
  last (last_n (S n) (l ++ [x])) = Some x.
Proof. rewrite last_n_app_one. apply last_snoc. Qed.

(** X22. After an accepted upload that is not a dropped duplicate, the
    status report of the master shows the uploaded entry as its latest
    signal, and at most 50 pending signals. *)
Theorem status_latest_after_upload (set_iter : pyset → list string)
  now now_ms data st :
  queueable data →
  (get data "action" ∈ opening_actions →
   ¬ Exists (same_triple data) (queue_of st (get data "master_id"))) →
  ∃ r,
    masters (status set_iter (upload_signal now now_ms data st).1)
      !! get data "master_id" = Some r
    ∧ latest_signal r = Some (stamp now now_ms data)
    ∧ (pending_signals r ≤ 50)%nat.
Proof.
  intros Hq Hnodup.
  rewrite status_masters_lookup, upload_signal_queueable by done. simpl.
  rewrite lookup_insert_eq. simpl. eexists. split; [done |]. simpl.
  split; [| apply enforce_cap_length].
  assert (E : ∃ q', insert_signal data (stamp now now_ms data)
                      (queue_of st (get data "master_id"))
                    = q' ++ [stamp now now_ms data]).
  { destruct (queueable_action_cases data Hq) as [Ha | [Ha | Ha]].
    - rewrite insert_signal_modify by done. by eexists.
    - rewrite insert_signal_closing by done. by eexists.
    - rewrite insert_signal_opening by done. unfold is_duplicate.
      rewrite bool_decide_eq_false_2 by by apply Hnodup. by eexists. }
  destruct E as [q' ->].
  rewrite enforce_cap_last_n. apply last_n_snoc_last.
Qed.

Lemma status_latest_after_upload_witness :
  let st := run insertion_order (uploads (burst 3)) in
  let data := trade "M" "CLOSE_TRADE" 2 "EURUSD" in
  ∃ r,
    masters (status insertion_order (upload_signal 9000000 9000 data st).1)
      !! VStr "M" = Some r
    ∧ latest_signal r = Some (stamp 9000000 9000 data)
    ∧ (pending_signals r ≤ 50)%nat.
Proof.
  intros st data.
  apply (status_latest_after_upload insertion_order 9000000 9000 data st).
  - queueable_by_evaluation.
  - intros Ha. exfalso. revert Ha. by_evaluation.
Defined.

(** ** Supersession, as a slave sees it *)

(** X23. After a CLOSE_TRADE or DELETE_ORDER upload for ticket [t], and
    until the next upload to that master, the only signal for [t] that a
    poll of the master can hand out, to any slave, is the closing one:
    what was queued for [t] before cannot reach a slave any more. *)
Theorem only_the_close_is_delivered (set_iter : pyset → list string)
  now now_ms data st now' s m X :
  queueable data →
  get data "action" ∈ closing_actions →
  get data "master_id" = VStr m →
  X ∈ delivered
        (slave_poll set_iter now' (Some s) (Some m)
           (upload_signal now now_ms data st).1).2 →
  ticket_of X = get data "master_ticket" →
  X = stamp now now_ms data.
Proof.
  intros Hq Ha Hm HX Ht.
  apply slave_poll_delivered_cases in HX
    as (s' & m' & q & [= <-] & [= <-] & Hlook & Hfind).
  apply find_unprocessed_Some in Hfind as (Hin & _ & _).
  rewrite upload_signal_queueable in Hlook by done. simpl in Hlook.
  rewrite Hm, lookup_insert_eq in Hlook. injection Hlook as <-.
  apply enforce_cap_elem_of in Hin.
  rewrite insert_signal_closing in Hin by done.
  apply elem_of_app in Hin as [Hin | Hin].
  - by apply list_elem_of_filter in Hin as [Hne _].
  - by apply list_elem_of_singleton in Hin.
Qed.

Lemma only_the_close_is_delivered_witness :
  let st := run insertion_order (uploads (burst 1)) in
  let data := trade "M" "CLOSE_TRADE" 1 "EURUSD" in
  delivered
    (slave_poll insertion_order 3000000 (Some "S") (Some "M")
       (upload_signal 2000000 2000 data st).1).2
  = [stamp 2000000 2000 data].
Proof.
  intros st data.
  destruct (delivered
              (slave_poll insertion_order 3000000 (Some "S") (Some "M")
                 (upload_signal 2000000 2000 data st).1).2)
    as [| X [| Y l]] eqn:E; [by vm_compute in E | | by vm_compute in E].
  f_equal.
  apply (only_the_close_is_delivered insertion_order 2000000 2000 data st
           3000000 "S" "M" X).
  - queueable_by_evaluation.
  - by_evaluation.
  - reflexivity.
  - rewrite E. left.
  - vm_compute in E. by injection E as <-.
Defined.

(** ** Ids and the always-append branch *)

(** X24. Two entries for the same ticket and action get the same id only
    when the clock showed the same millisecond to both uploads. *)
Theorem signal_id_distinct_across_milliseconds
  now1 now2 ms1 ms2 data1 data2 :
  get data1 "master_ticket" = get data2 "master_ticket" →
  get data1 "action" = get data2 "action" →
  ms1 ≠ ms2 →
  signal_id (stamp now1 ms1 data1) ≠ signal_id (stamp now2 ms2 data2).
Proof.
  intros Ht Ha Hms E. apply Hms. unfold stamp in E. simpl in E.
  rewrite Ht, Ha in E. by apply make_signal_id_inj in E.
Qed.

Lemma signal_id_distinct_across_milliseconds_witness :
  signal_id (stamp 1000100 1000 (trade "M" "MODIFY_TRADE" 7 "EURUSD"))
  ≠ signal_id (stamp 1001200 1001 (trade "M" "MODIFY_TRADE" 7 "GBPUSD")).
Proof.
  apply signal_id_distinct_across_milliseconds; [reflexivity .. | lia].
Defined.

(** X25. A MODIFY_TRADE or MODIFY_PENDING request is appended whatever
    the queue holds, also when an entry with the same ticket, action and
    symbol is queued; the queue is then cut to its last 50 entries. *)
Theorem modify_appended_unconditionally now now_ms data st :
  queueable data →
  get data "action" ∈ modify_actions →
  let m := get data "master_id" in
  queue_of (upload_signal now now_ms data st).1 m
  = last_n 49 (queue_of st m) ++ [stamp now now_ms data].
Proof.
  intros Hq Ha m. subst m.
  rewrite (modify_always_appended now now_ms data st Hq Ha).
  apply last_n_app_one.
Qed.

Lemma modify_appended_unconditionally_witness :
  let data := trade "M" "MODIFY_TRADE" 7 "EURUSD" in
  let st := (upload_signal 1000000 1000 data initial).1 in
  queue_of (upload_signal 2000000 2000 data st).1 (VStr "M")
  = [stamp 1000000 1000 data; stamp 2000000 2000 data].
Proof.
  intros data st.
  assert (Hq : queueable data) by queueable_by_evaluation.
  assert (Ha : get data "action" ∈ modify_actions) by by_evaluation.
  exact (modify_appended_unconditionally 2000000 2000 data st Hq Ha).
Defined.

(** X26. The size bound of the processed sets: in every reachable state,
    and whatever the iteration order of the sets, no slave has more than
    200 processed ids. *)
Theorem processed_set_bounded (set_iter : pyset → list string) st :
  reachable set_iter st →
  ∀ s ids, slave_processed_signals st !! s = Some ids →
           (length ids ≤ 200)%nat.
Proof.
  intros Hreach s ids Hs.
  pose proof (reachable_tracker_length set_iter st Hreach s) as H.
  unfold tracker_of in H. by rewrite Hs in H.
Qed.

Lemma processed_set_bounded_witness :
  let st := run reverse_order
              (uploads (burst 3) ++ [Poll 4000000 (Some "S") (Some "M")]) in
  ∃ ids, slave_processed_signals st !! VStr "S" = Some ids
         ∧ (length ids ≤ 200)%nat.
Proof.
  intros st.
  destruct (slave_processed_signals st !! VStr "S") as [ids |] eqn:E;
    [| by vm_compute in E].
  exists ids. split; [done |].
  exact (processed_set_bounded reverse_order st
           (reachable_run reverse_order _) (VStr "S") ids E).
Defined.

(** X27. A poll of a master that has no queue is not an error: it answers
    with no signal, registers the pair (or refreshes its [last_poll]) and
    writes nothing else - no queue and no processed set is created. *)
Theorem slave_poll_without_queue (set_iter : pyset → list string)
  now s m st :
  s ≠ "" → m ≠ "" →
  signals_queue st !! VStr m = None →
  let p := slave_poll set_iter now (Some s) (Some m) st in
  p.2 = PollOk []
  ∧ is_Some (registration p.1 (VStr m) (VStr s))
  ∧ signals_queue p.1 = signals_queue st
  ∧ slave_processed_signals p.1 = slave_processed_signals st.
Proof.
  intros Hs Hm Hq p.
  assert (Hreg : is_Some (registration p.1 (VStr m) (VStr s))).
  { unfold p. rewrite slave_poll_registers by done. by eexists. }
  split; [| split; [exact Hreg | split; [apply slave_poll_queue |]]].
  - unfold p, slave_poll. rewrite decide_False by (by intros [? | ?]).
    simpl. by rewrite Hq.
  - unfold p, slave_poll. rewrite decide_False by (by intros [? | ?]).
    simpl. by rewrite Hq.
Qed.

Lemma slave_poll_without_queue_witness :
  let p := slave_poll insertion_order 1000000 (Some "S") (Some "M")
             initial in
  p.2 = PollOk []
  ∧ is_Some (registration p.1 (VStr "M") (VStr "S"))
  ∧ signals_queue p.1 = signals_queue initial
  ∧ slave_processed_signals p.1 = slave_processed_signals initial.
Proof.
  apply (slave_poll_without_queue insertion_order 1000000 "S" "M" initial);
    done.
Defined.
